(** * Monte Carlo Tree Search for grammar search: a model of [hybrid_nlg/mcts.py]

    The four classes of the module ([CounterNode], [RessourceDistributor],
    [EvalBuffer], [MCTS]) are embedded as Rocq modules of the same names.
    Python objects live in a heap addressed by references; methods take the
    heap (or the record of their own object) and return the new one.

    Conventions.
    - Python numbers ([int] counters apart) are exact rationals [Q]: a float
      is a rational, and rounding of [+], [*], [/] is not modelled.
    - A raised exception is a [Raise e] result and ends the computation.
    - A recursive method takes the remaining recursion depth, a [while] loop
      whose end is not evident from its text takes fuel. *)

From Stdlib Require Import QArith ZArith Lia.
From stdpp Require Import base option list strings.

Set Warnings "-register-all".

Local Open Scope Z_scope.

(** ** Exceptions and results *)

(** The exceptions of Python that the module can raise. [Diverged] stands
    for a [while] loop that has used up its fuel, and [InvalidReference] for
    the read of a reference the heap does not hold, which no Python program
    can produce. *)
Inductive exn : Type :=
| AssertionError (msg : string)
| AttributeError (attr : string)
| ZeroDivisionError
| ValueError (msg : string)
| UnboundLocalError (name : string)
| RecursionError
| Diverged
| InvalidReference.

Inductive result (A : Type) : Type :=
| Ok (a : A)
| Raise (e : exn).

Arguments Ok {A} a.
Arguments Raise {A} e.

Definition bind {A B : Type} (m : result A) (k : A -> result B) : result B :=
  match m with
  | Ok a => k a
  | Raise e => Raise e
  end.

Notation "x <- m ;; k" := (bind m (fun x => k))
  (at level 100, m at next level, right associativity).



(** ** Numbers *)

(** Python's [a > b] and [a >= b] on numbers. *)
Definition Qgtb (a b : Q) : bool := negb (Qle_bool a b).
Definition Qgeb (a b : Q) : bool := Qle_bool b a.

(** Python's true division [a / b]. *)
Definition truediv (a b : Q) : result Q :=
  if Qeq_bool b 0 then Raise ZeroDivisionError else Ok (a / b)%Q.

(** The [math] module: [math.sqrt] and [math.log] raise [ValueError] out of
    their domain; the value they return inside it is the library's. *)
Module math.

Class t : Type := {
  sqrt_value : Q -> Q;
  log_value : Q -> Q }.

Definition sqrt `{!t} (x : Q) : result Q :=
  if Qgtb 0 x then Raise (ValueError "math domain error") else Ok (sqrt_value x).

Definition log `{!t} (x : Q) : result Q :=
  if Qle_bool x 0 then Raise (ValueError "math domain error") else Ok (log_value x).

End math.

(** ** External collaborators *)

(** [GrammarNode] (module [grammar_tree]): one node of the tree being
    searched. The two sampling methods draw from Python's random generator,
    whose state is a natural number here. *)
Module GrammarNode.

Class t (G : Type) : Type := {
  is_terminal : G -> bool;
  children : G -> list G;
  random_child : G -> nat -> G * nat;
  is_dead_end : G -> bool;
  estimate_mean_depth : G -> Z -> nat -> Q * nat;
  str : G -> string }.

End GrammarNode.

(** [SentenceScore] (module [lm_scorer]): the scorer object [LM] and its one
    method, which may change the object. *)
Module SentenceScore.

Class t (LM : Type) : Type := {
  compute_score : LM -> list string -> list Q * LM }.

End SentenceScore.

(** References to [CounterNode] objects in the heap. *)
Abbreviation ref := nat.

(** ** CounterNode *)

Module CounterNode.

Record t (G : Type) : Type := mk {
  reference_node : G;
  _children : option (list ref);
  parent : option ref;
  _is_terminal : bool;
  count : Z;
  sum_rewards : Q;
  sum_of_square_rewards : Q;
  top_reward : Q;
  top_leaf_node : option G;
  freeze : bool;
  solved : bool }.

Arguments mk {G}.
Arguments reference_node {G}.
Arguments _children {G}.
Arguments parent {G}.
Arguments _is_terminal {G}.
Arguments count {G}.
Arguments sum_rewards {G}.
Arguments sum_of_square_rewards {G}.
Arguments top_reward {G}.
Arguments top_leaf_node {G}.
Arguments freeze {G}.
Arguments solved {G}.

Section methods.
Context {G : Type} `{!GrammarNode.t G}.

(** Attribute assignments [self.x = v]. *)
Definition set_children (v : option (list ref)) (n : t G) : t G :=
  mk (reference_node n) v (parent n) (_is_terminal n) (count n) (sum_rewards n)
     (sum_of_square_rewards n) (top_reward n) (top_leaf_node n) (freeze n) (solved n).

Definition set_is_terminal (v : bool) (n : t G) : t G :=
  mk (reference_node n) (_children n) (parent n) v (count n) (sum_rewards n)
     (sum_of_square_rewards n) (top_reward n) (top_leaf_node n) (freeze n) (solved n).

Definition set_count (v : Z) (n : t G) : t G :=
  mk (reference_node n) (_children n) (parent n) (_is_terminal n) v (sum_rewards n)
     (sum_of_square_rewards n) (top_reward n) (top_leaf_node n) (freeze n) (solved n).

Definition set_sum_rewards (v : Q) (n : t G) : t G :=
  mk (reference_node n) (_children n) (parent n) (_is_terminal n) (count n) v
     (sum_of_square_rewards n) (top_reward n) (top_leaf_node n) (freeze n) (solved n).

Definition set_sum_of_square_rewards (v : Q) (n : t G) : t G :=
  mk (reference_node n) (_children n) (parent n) (_is_terminal n) (count n) (sum_rewards n)
     v (top_reward n) (top_leaf_node n) (freeze n) (solved n).

Definition set_top (r : Q) (leaf : option G) (n : t G) : t G :=
  mk (reference_node n) (_children n) (parent n) (_is_terminal n) (count n) (sum_rewards n)
     (sum_of_square_rewards n) r leaf (freeze n) (solved n).

Definition set_freeze (v : bool) (n : t G) : t G :=
  mk (reference_node n) (_children n) (parent n) (_is_terminal n) (count n) (sum_rewards n)
     (sum_of_square_rewards n) (top_reward n) (top_leaf_node n) v (solved n).

Definition set_solved (v : bool) (n : t G) : t G :=
  mk (reference_node n) (_children n) (parent n) (_is_terminal n) (count n) (sum_rewards n)
     (sum_of_square_rewards n) (top_reward n) (top_leaf_node n) (freeze n) v.

(** The heap of counter nodes: the object of reference [r] is at index [r]. *)
Local Abbreviation heap := (list (t G)).

Definition deref (h : heap) (r : ref) : result (t G) :=
  match h !! r with
  | Some n => Ok n
  | None => Raise InvalidReference
  end.

(** [CounterNode(reference_node, parent)]. *)
Definition __init__ (reference_node : G) (parent : option ref) : t G :=
  mk reference_node None parent true 0 0%Q 0%Q (-1)%Q None false false.

(** Allocation of a new object: its reference is the next free index. *)
Definition new (h : heap) (reference_node : G) (parent : option ref) : heap * ref :=
  (h ++ [__init__ reference_node parent], length h).

Definition expand (h : heap) (self : ref) : result heap :=
  node <- deref h self ;;
  if GrammarNode.is_terminal (reference_node node)
  then Raise (AssertionError "Try to expand a terminal node")
  else
    let kids := GrammarNode.children (reference_node node) in
    let h' := h ++ map (fun child_node => __init__ child_node (Some self)) kids in
    let refs := seq (length h) (length kids) in
    Ok (alter (fun n => set_is_terminal false (set_children (Some refs) n)) self h').

Definition not_expanded_yet : exn :=
  AssertionError
    "Try to access children but the current counter node has not been expanded yet".

(** [assert self._children]: [None] and the empty list are both falsy. *)
Definition children (h : heap) (self : ref) : result (list ref) :=
  node <- deref h self ;;
  match _children node with
  | Some (c :: cs) => Ok (c :: cs)
  | _ => Raise not_expanded_yet
  end.

Definition is_terminal (h : heap) (self : ref) : result bool :=
  node <- deref h self ;;
  Ok (_is_terminal node).

(** The statistics update of [backpropagate] on one node. *)
Definition absorb (new_reward : Q) (leaf : G) (n : t G) : t G :=
  let n1 := set_sum_rewards (sum_rewards n + new_reward)%Q n in
  let n2 := set_sum_of_square_rewards (sum_of_square_rewards n1 + new_reward ^ 2)%Q n1 in
  if Qgtb new_reward (top_reward n2) then set_top new_reward (Some leaf) n2 else n2.

Fixpoint backpropagate (depth : nat) (h : heap) (self : ref) (new_reward : Q) (leaf : G)
  : result heap :=
  match depth with
  | O => Raise RecursionError
  | S depth' =>
      node <- deref h self ;;
      if freeze node then Ok h
      else
        let h' := alter (absorb new_reward leaf) self h in
        match parent node with
        | Some p => backpropagate depth' h' p new_reward leaf
        | None => Ok h'
        end
  end.

(** The loop of [set_as_solved] over the brothers: [false] as soon as one of
    them is not solved. *)
Fixpoint all_solved (h : heap) (brothers : list ref) : result bool :=
  match brothers with
  | [] => Ok true
  | brother :: rest =>
      b <- deref h brother ;;
      if solved b then all_solved h rest else Ok false
  end.

Fixpoint set_as_solved (depth : nat) (h : heap) (self : ref) : result heap :=
  match depth with
  | O => Raise RecursionError
  | S depth' =>
      node <- deref h self ;;
      let h' := alter (set_solved true) self h in
      match parent node with
      | None => Ok h'
      | Some p =>
          pnode <- deref h' p ;;
          if freeze pnode then Ok h'
          else
            brothers <- children h' p ;;
            go_up <- all_solved h' brothers ;;
            if go_up then set_as_solved depth' h' p else Ok h'
      end
  end.

End methods.
End CounterNode.

(** ** RessourceDistributor *)

Module RessourceDistributor.

(** [ressources_to_consume_at_current_depth] is [None] as long as no
    assignment has created the attribute. *)
Record t : Type := mk {
  strategy : string;
  ressources_to_consume : Z;
  ressources_to_consume_at_current_depth : option Q;
  current_depth : Z;
  ressources_already_consumed : Z;
  ressources_already_consumed_at_current_depth : Z }.

Definition reset (self : t) : t :=
  mk (strategy self) (ressources_to_consume self)
     (ressources_to_consume_at_current_depth self) 1 0 0.

Section methods.
Context {G : Type} `{!GrammarNode.t G}.

(** [strategy if strategy else "ALL_FROM_ROOT"]: the empty string is falsy. *)
Definition __init__ (strategy : string) (tree_root : G) (ressources : Z) (rng : nat)
  : result (t * nat) :=
  let strategy := if String.eqb strategy "" then "ALL_FROM_ROOT"%string else strategy in
  if String.eqb strategy "ALL_FROM_ROOT" then
    Ok (reset (mk strategy ressources (Some (inject_Z ressources)) 0 0 0), rng)
  else if String.eqb strategy "UNIFORM" then
    let '(average_depth, rng') := GrammarNode.estimate_mean_depth tree_root 50 rng in
    q <- truediv (inject_Z ressources) average_depth ;;
    Ok (reset (mk strategy ressources (Some (q * (12 # 10))%Q) 0 0 0), rng')
  else
    Ok (reset (mk strategy ressources None 0 0 0), rng).

End methods.

Definition set_new_position (self : t) (depth : Z) : t :=
  mk (strategy self) (ressources_to_consume self)
     (ressources_to_consume_at_current_depth self) depth
     (ressources_already_consumed self) 0.

Definition consume_one_unit (self : t) : t :=
  mk (strategy self) (ressources_to_consume self)
     (ressources_to_consume_at_current_depth self) (current_depth self)
     (ressources_already_consumed self + 1)
     (ressources_already_consumed_at_current_depth self + 1).

Definition still_has_ressources (self : t) : bool :=
  ressources_already_consumed self <? ressources_to_consume self.

Definition should_go_down_into_the_tree (self : t) : result bool :=
  if String.eqb (strategy self) "ALL_FROM_ROOT" then Ok false
  else
    match ressources_to_consume_at_current_depth self with
    | Some quota =>
        Ok (Qgeb (inject_Z (ressources_already_consumed_at_current_depth self)) quota)
    | None => Raise (AttributeError "ressources_to_consume_at_current_depth")
    end.

End RessourceDistributor.

(** ** EvalBuffer *)

Module EvalBuffer.

Record t (G LM : Type) : Type := mk {
  lm_scorer : LM;
  buffer_size : Z;
  buffer : list (G * ref);
  results : list (Q * G * ref);
  best_sentence : string;
  best_score : Q;
  score_history : list Q }.

Arguments mk {G LM}.
Arguments lm_scorer {G LM}.
Arguments buffer_size {G LM}.
Arguments buffer {G LM}.
Arguments results {G LM}.
Arguments best_sentence {G LM}.
Arguments best_score {G LM}.
Arguments score_history {G LM}.

Section methods.
Context {G LM : Type} `{!GrammarNode.t G} `{!SentenceScore.t LM}.

Definition __init__ (buffer_size : Z) (lm_scorer : LM) : t G LM :=
  mk lm_scorer buffer_size [] [] "" (-1)%Q [].

(** The body of the loop of [force_eval] over [zip(scores, self.buffer)]:
    the pairs are consumed in order and the loop stops with the shorter
    sequence. *)
Fixpoint record_scores (scores : list Q) (buffer : list (G * ref))
    (results : list (Q * G * ref)) (best_score : Q) (best_sentence : string)
  : list (Q * G * ref) * Q * string :=
  match scores, buffer with
  | score :: scores', (leaf, frontier_counter_node) :: buffer' =>
      let results' := results ++ [(score, leaf, frontier_counter_node)] in
      if Qgtb score best_score
      then record_scores scores' buffer' results' score (GrammarNode.str leaf)
      else record_scores scores' buffer' results' best_score best_sentence
  | _, _ => (results, best_score, best_sentence)
  end.

Definition force_eval (self : t G LM) : t G LM :=
  match buffer self with
  | [] => self
  | _ :: _ =>
      let '(scores, scorer') :=
        SentenceScore.compute_score (lm_scorer self)
          (map (fun entry => GrammarNode.str (fst entry)) (buffer self)) in
      let history := score_history self ++ scores in
      let '(results', best_score', best_sentence') :=
        record_scores scores (buffer self) (results self)
          (best_score self) (best_sentence self) in
      mk scorer' (buffer_size self) [] results' best_sentence' best_score' history
  end.

Definition add (self : t G LM) (frontier_counter_node : ref) (leaf : G) : t G LM :=
  let self1 :=
    if GrammarNode.is_dead_end leaf
    then mk (lm_scorer self) (buffer_size self) (buffer self)
            (results self ++ [(0%Q, leaf, frontier_counter_node)])
            (best_sentence self) (best_score self) (score_history self)
    else mk (lm_scorer self) (buffer_size self)
            (buffer self ++ [(leaf, frontier_counter_node)])
            (results self) (best_sentence self) (best_score self) (score_history self) in
  if Z.of_nat (length (buffer self1)) =? buffer_size self1
  then force_eval self1
  else self1.

Definition pop_results (self : t G LM) : list (Q * G * ref) * t G LM :=
  (results self,
   mk (lm_scorer self) (buffer_size self) (buffer self) []
      (best_sentence self) (best_score self) (score_history self)).

End methods.
End EvalBuffer.

(** ** MCTS *)

Module MCTS.

(** The [MCTS] object, together with the part of the Python store its
    methods work on: the heap of counter nodes and the state of the random
    generator. [ressource_distributor] is [None] until [search] assigns it. *)
Record t (G LM : Type) : Type := mk {
  allocation_strategy : string;
  nb_random_restarts : Z;
  eval_buffer : EvalBuffer.t G LM;
  ressource_distributor : option RessourceDistributor.t;
  nodes : list (CounterNode.t G);
  rng : nat }.

Arguments mk {G LM}.
Arguments allocation_strategy {G LM}.
Arguments nb_random_restarts {G LM}.
Arguments eval_buffer {G LM}.
Arguments ressource_distributor {G LM}.
Arguments nodes {G LM}.
Arguments rng {G LM}.

Section methods.
Context {G LM : Type} `{!GrammarNode.t G} `{!SentenceScore.t LM} `{!math.t}.

(** [recursion_limit] bounds the depth of the recursive methods of
    [CounterNode]; [loop_fuel] bounds the iterations of each [while] loop. *)
Variables (recursion_limit loop_fuel : nat).

Definition __init__ (lm_scorer : LM) (allocation_strategy : string) (buffer_size : Z)
    (nb_random_restarts : Z) (rng : nat) : t G LM :=
  mk allocation_strategy nb_random_restarts (EvalBuffer.__init__ buffer_size lm_scorer)
     None [] rng.

Definition set_eval_buffer (v : EvalBuffer.t G LM) (self : t G LM) : t G LM :=
  mk (allocation_strategy self) (nb_random_restarts self) v
     (ressource_distributor self) (nodes self) (rng self).

Definition set_ressource_distributor (v : RessourceDistributor.t) (self : t G LM) : t G LM :=
  mk (allocation_strategy self) (nb_random_restarts self) (eval_buffer self)
     (Some v) (nodes self) (rng self).

Definition set_nodes (v : list (CounterNode.t G)) (self : t G LM) : t G LM :=
  mk (allocation_strategy self) (nb_random_restarts self) (eval_buffer self)
     (ressource_distributor self) v (rng self).

Definition set_rng (v : nat) (self : t G LM) : t G LM :=
  mk (allocation_strategy self) (nb_random_restarts self) (eval_buffer self)
     (ressource_distributor self) (nodes self) v.

(** The attribute read [self.ressource_distributor]. *)
Definition distributor (self : t G LM) : result RessourceDistributor.t :=
  match ressource_distributor self with
  | Some rd => Ok rd
  | None => Raise (AttributeError "ressource_distributor")
  end.

(** *** UCB *)

Definition single_player_ucb (child parent : CounterNode.t G) (c d : Q) : result Q :=
  mean <- truediv (CounterNode.sum_rewards child) (inject_Z (CounterNode.count child)) ;;
  ratio <- truediv (inject_Z (CounterNode.count parent)) (inject_Z (CounterNode.count child)) ;;
  l <- math.log ratio ;;
  exploration <- math.sqrt (c * l)%Q ;;
  mean' <- truediv (CounterNode.sum_rewards child) (inject_Z (CounterNode.count child)) ;;
  spread <- truediv
    (CounterNode.sum_of_square_rewards child
     - inject_Z (CounterNode.count child) * mean' ^ 2 + d)%Q
    (inject_Z (CounterNode.count child)) ;;
  deviation <- math.sqrt spread ;;
  Ok (mean + exploration + deviation)%Q.

(** *** Python's [max(iterable, key=...)]: the first item whose key is
    greatest; [ValueError] on an empty sequence. *)
Fixpoint max_loop {A : Type} (key : A -> result Q) (best : A) (best_key : Q) (l : list A)
  : result A :=
  match l with
  | [] => Ok best
  | x :: l' =>
      k <- key x ;;
      if Qgtb k best_key then max_loop key x k l' else max_loop key best best_key l'
  end.

Definition py_max {A : Type} (key : A -> result Q) (l : list A) : result A :=
  match l with
  | [] => Raise (ValueError "max() arg is an empty sequence")
  | x :: l' => k <- key x ;; max_loop key x k l'
  end.

(** *** Selection *)

(** The first loop of [selection_policy]: the first child never visited. *)
Fixpoint first_unvisited (h : list (CounterNode.t G)) (kids : list ref)
  : result (option ref) :=
  match kids with
  | [] => Ok None
  | child :: rest =>
      n <- CounterNode.deref h child ;;
      if CounterNode.count n =? 0 then Ok (Some child) else first_unvisited h rest
  end.

(** [[children for children in ... if not children.solved]]. *)
Fixpoint unsolved_children (h : list (CounterNode.t G)) (kids : list ref)
  : result (list ref) :=
  match kids with
  | [] => Ok []
  | child :: rest =>
      n <- CounterNode.deref h child ;;
      others <- unsolved_children h rest ;;
      Ok (if CounterNode.solved n then others else child :: others)
  end.

Definition ucb_key (h : list (CounterNode.t G)) (counter_node : ref) (node : ref)
  : result Q :=
  child <- CounterNode.deref h node ;;
  parent <- CounterNode.deref h counter_node ;;
  single_player_ucb child parent 1 100.

Definition selection_policy (h : list (CounterNode.t G)) (counter_node : ref)
  : result ref :=
  kids <- CounterNode.children h counter_node ;;
  first <- first_unvisited h kids ;;
  match first with
  | Some child => Ok child
  | None =>
      kids' <- CounterNode.children h counter_node ;;
      unsolved <- unsolved_children h kids' ;;
      py_max (ucb_key h counter_node) unsolved
  end.

(** [node.count += 1]. *)
Definition visit (h : list (CounterNode.t G)) (node : ref)
  : result (list (CounterNode.t G)) :=
  n <- CounterNode.deref h node ;;
  Ok (alter (fun n => CounterNode.set_count (CounterNode.count n + 1) n) node h).

Fixpoint selection_loop (fuel : nat) (h : list (CounterNode.t G)) (node : ref)
  : result (ref * list (CounterNode.t G)) :=
  match fuel with
  | O => Raise Diverged
  | S fuel' =>
      terminal <- CounterNode.is_terminal h node ;;
      if terminal then Ok (node, h)
      else
        next <- selection_policy h node ;;
        h' <- visit h next ;;
        selection_loop fuel' h' next
  end.

Definition selection_phase (h : list (CounterNode.t G)) (root : ref)
  : result (ref * list (CounterNode.t G)) :=
  h' <- visit h root ;;
  selection_loop loop_fuel h' root.

(** *** Simulation: the random descent to a terminal grammar node. *)
Fixpoint simulation (fuel : nat) (tmp_node : G) (rng : nat) : result (G * nat) :=
  match fuel with
  | O => Raise Diverged
  | S fuel' =>
      if GrammarNode.is_terminal tmp_node then Ok (tmp_node, rng)
      else
        let '(next, rng') := GrammarNode.random_child tmp_node rng in
        simulation fuel' next rng'
  end.

(** *** Backpropagation of a sequence of results, in order. *)
Fixpoint backpropagate_all (h : list (CounterNode.t G)) (results : list (Q * G * ref))
  : result (list (CounterNode.t G)) :=
  match results with
  | [] => Ok h
  | (reward, leaf, frontier_counter_node) :: rest =>
      h' <- CounterNode.backpropagate recursion_limit h frontier_counter_node reward leaf ;;
      backpropagate_all h' rest
  end.

(** *** One pass through the body of the loop of [single_search]. *)
Definition advance_root (self : t G LM) (counter_root : ref) (current_depth : Z)
  : result (t G LM * ref * Z) :=
  let eb := EvalBuffer.force_eval (eval_buffer self) in
  let '(results, eb') := EvalBuffer.pop_results eb in
  h <- backpropagate_all (nodes self) results ;;
  _ <- CounterNode.deref h counter_root ;;
  let h' := alter (CounterNode.set_freeze true) counter_root h in
  kids <- CounterNode.children h' counter_root ;;
  best <- py_max (fun child => n <- CounterNode.deref h' child ;; Ok (CounterNode.top_reward n))
            kids ;;
  let current_depth' := current_depth + 1 in
  rd <- distributor self ;;
  Ok (set_ressource_distributor (RessourceDistributor.set_new_position rd current_depth')
        (set_nodes h' (set_eval_buffer eb' self)),
      best, current_depth').

Definition iteration (self : t G LM) (counter_root : ref) (current_depth : Z)
  : result (t G LM * ref * Z) :=
  rd <- distributor self ;;
  let self := set_ressource_distributor (RessourceDistributor.consume_one_unit rd) self in
  sel <- selection_phase (nodes self) counter_root ;;
  let '(frontier_counter_node, h) := sel in
  frontier <- CounterNode.deref h frontier_counter_node ;;
  h <- (if GrammarNode.is_terminal (CounterNode.reference_node frontier)
        then CounterNode.set_as_solved recursion_limit h frontier_counter_node
        else CounterNode.expand h frontier_counter_node) ;;
  sim <- simulation loop_fuel (CounterNode.reference_node frontier) (rng self) ;;
  let '(random_leaf, rng') := sim in
  let eb := EvalBuffer.add (eval_buffer self) frontier_counter_node random_leaf in
  let '(results, eb') := EvalBuffer.pop_results eb in
  h <- backpropagate_all h results ;;
  let self := set_rng rng' (set_nodes h (set_eval_buffer eb' self)) in
  rd <- distributor self ;;
  go_down <- RessourceDistributor.should_go_down_into_the_tree rd ;;
  if go_down then advance_root self counter_root current_depth
  else Ok (self, counter_root, current_depth).

(** The condition of the loop, evaluated left to right. *)
Definition keep_searching (self : t G LM) (counter_root : ref) : result bool :=
  root <- CounterNode.deref (nodes self) counter_root ;;
  if GrammarNode.is_terminal (CounterNode.reference_node root) then Ok false
  else if CounterNode.solved root then Ok false
  else
    rd <- distributor self ;;
    Ok (RessourceDistributor.still_has_ressources rd).

Fixpoint search_loop (fuel : nat) (self : t G LM) (counter_root : ref) (current_depth : Z)
  : result (t G LM) :=
  match fuel with
  | O => Raise Diverged
  | S fuel' =>
      continue <- keep_searching self counter_root ;;
      if continue then
        next <- iteration self counter_root current_depth ;;
        let '(self', counter_root', current_depth') := next in
        search_loop fuel' self' counter_root' current_depth'
      else Ok self
  end.

Definition single_search (self : t G LM) (root : G) : result (ref * t G LM) :=
  let '(h, initial_counter_root) := CounterNode.new (nodes self) root None in
  self <- search_loop loop_fuel (set_nodes h self) initial_counter_root 1 ;;
  Ok (initial_counter_root,
      set_eval_buffer (EvalBuffer.force_eval (eval_buffer self)) self).

(** The loop of [search] over the restarts; [counter_root] is the variable
    of that name, unbound before the first pass. *)
Fixpoint restarts (n : nat) (self : t G LM) (root : G) (counter_root : option ref)
  : result (option ref * t G LM) :=
  match n with
  | O => Ok (counter_root, self)
  | S n' =>
      rd <- distributor self ;;
      let self := set_ressource_distributor (RessourceDistributor.reset rd) self in
      run <- single_search self root ;;
      let '(counter_root', self') := run in
      restarts n' self' root (Some counter_root')
  end.

Definition search (self : t G LM) (root : G) (nb_of_tree_walks : Z)
  : result (string * Q * ref * t G LM) :=
  if nb_random_restarts self =? 0 then Raise ZeroDivisionError
  else
    let nb_tree_walks_per_search := nb_of_tree_walks / nb_random_restarts self in
    made <- RessourceDistributor.__init__ (allocation_strategy self) root
              nb_tree_walks_per_search (rng self) ;;
    let '(rd, rng') := made in
    let self := set_rng rng' (set_ressource_distributor rd self) in
    done <- restarts (Z.to_nat (nb_random_restarts self)) self root None ;;
    let '(counter_root, self') := done in
    match counter_root with
    | Some r =>
        Ok (EvalBuffer.best_sentence (eval_buffer self'),
            EvalBuffer.best_score (eval_buffer self'), r, self')
    | None => Raise (UnboundLocalError "counter_root")
    end.

End methods.
End MCTS.

(** ** A small grammar, a scorer stub and a [math] stand-in for the examples *)

Module Sample.

(** A grammar given as a tree: [Leaf text dead_end] is terminal, [Node text
    kids] is not (also when [kids] is empty). *)
Inductive tree : Type :=
| Leaf (text : string) (dead_end : bool)
| Node (text : string) (kids : list tree).

Definition tree_text (g : tree) : string :=
  match g with Leaf s _ => s | Node s _ => s end.

Definition tree_kids (g : tree) : list tree :=
  match g with Leaf _ _ => [] | Node _ kids => kids end.

(** The number of nodes on the leftmost branch. *)
Fixpoint leftmost_depth (g : tree) : Z :=
  match g with
  | Leaf _ _ => 1
  | Node _ [] => 1
  | Node _ (k :: _) => 1 + leftmost_depth k
  end.

(** The random generator is a counter: the draw is its value modulo the
    number of children. The mean depth is estimated by the leftmost branch. *)
#[global] Instance tree_grammar : GrammarNode.t tree := {|
  GrammarNode.is_terminal g := match g with Leaf _ _ => true | Node _ _ => false end;
  GrammarNode.children := tree_kids;
  GrammarNode.random_child g rng :=
    (nth (rng mod length (tree_kids g))%nat (tree_kids g) (Leaf "" true), Datatypes.S rng);
  GrammarNode.is_dead_end g := match g with Leaf _ d => d | Node _ _ => false end;
  GrammarNode.estimate_mean_depth g _ rng := (inject_Z (leftmost_depth g), rng);
  GrammarNode.str := tree_text |}.

(** A scorer stub that records the calls it receives; the score of a text is
    its length. *)
#[global] Instance stub_scorer : SentenceScore.t (list (list string)) := {|
  SentenceScore.compute_score calls texts :=
    (map (fun s => inject_Z (Z.of_nat (String.length s))) texts, calls ++ [texts]) |}.

(** Coarse rational stand-ins for the square root and the logarithm. *)
#[global] Instance coarse_math : math.t := {|
  math.sqrt_value x := inject_Z (Z.sqrt (Qnum x / Zpos (Qden x)));
  math.log_value x := inject_Z (Z.log2 (Qnum x / Zpos (Qden x))) |}.

Definition leaf_x : tree := Leaf "x" false.
Definition leaf_yy : tree := Leaf "yy" false.
Definition leaf_dead : tree := Leaf "zzz" true.

(** root -> a -> {x, yy} *)
Definition chain : tree := Node "r" [Node "a" [leaf_x; leaf_yy]].

(** A node that is not terminal and has no child. *)
Definition barren : tree := Node "b" [].

(** A fresh engine with one restart, an empty call record and the random
    generator at 0. *)
Definition engine (strategy : string) (buffer_size : Z)
  : MCTS.t tree (list (list string)) :=
  MCTS.__init__ [] strategy buffer_size 1 0%nat.

(** The same engine once [search] has assigned its distributor. *)
Definition started (strategy : string) (buffer_size ressources : Z)
  : result (MCTS.t tree (list (list string))) :=
  made <- RessourceDistributor.__init__ strategy chain ressources 0%nat ;;
  Ok (MCTS.set_ressource_distributor (fst made) (engine strategy buffer_size)).

(** A frozen root with one child that is not frozen. *)
Definition frozen_pair : list (CounterNode.t tree) :=
  [CounterNode.set_freeze true (CounterNode.__init__ chain None);
   CounterNode.__init__ leaf_x (Some 0%nat)].

(** A buffer of size 3 with two leaves pending. *)
Definition two_pending : EvalBuffer.t tree (list (list string)) :=
  EvalBuffer.add (EvalBuffer.add (EvalBuffer.__init__ 3 []) 0%nat leaf_x) 1%nat leaf_yy.

(** A node visited three times with two children, the first visited twice
    with rewards 1 and 2, the second never visited. *)
Definition visited_parent : CounterNode.t tree :=
  CounterNode.mk (Node "a" [leaf_x; leaf_yy]) (Some [1%nat; 2%nat]) None false 3
    3%Q 5%Q 2%Q (Some leaf_yy) false false.

Definition visited_child : CounterNode.t tree :=
  CounterNode.mk leaf_x None (Some 0%nat) true 2 3%Q 5%Q 2%Q (Some leaf_x) false false.

Definition family : list (CounterNode.t tree) :=
  [visited_parent; visited_child; CounterNode.__init__ leaf_yy (Some 0%nat)].

(** The engine that [search] hands to [single_search] for 4 walks under
    UNIFORM with a buffer of size 1. *)
Definition uniform_engine : MCTS.t tree (list (list string)) :=
  match started "UNIFORM" 1 4 with
  | Ok e => e
  | Raise _ => engine "UNIFORM" 1
  end.

(** A grammar of one terminal node whose estimated mean depth is 0. *)
Definition flat_grammar : GrammarNode.t unit := {|
  GrammarNode.is_terminal _ := true;
  GrammarNode.children _ := [];
  GrammarNode.random_child g rng := (g, rng);
  GrammarNode.is_dead_end _ := false;
  GrammarNode.estimate_mean_depth _ _ rng := (0%Q, rng);
  GrammarNode.str _ := ""%string |}.

(** A node whose only child has been visited and is solved. *)
Definition exhausted : list (CounterNode.t tree) :=
  [CounterNode.mk (Node "r" [leaf_x]) (Some [1%nat]) None false 2
     1%Q 1%Q 1%Q (Some leaf_x) false false;
   CounterNode.mk leaf_x None (Some 0%nat) true 1 1%Q 1%Q 1%Q (Some leaf_x) false true].

(** The engine in the middle of a search whose heap is the sample family. *)
Definition mid_search : MCTS.t tree (list (list string)) :=
  MCTS.set_nodes family uniform_engine.

End Sample.


(** ** Notions used by the statements *)

(** A call made on a [RessourceDistributor] during a search. *)
Inductive distributor_call : Type :=
| Consume_one_unit
| Set_new_position (depth : Z).

Definition make_call (rd : RessourceDistributor.t) (c : distributor_call)
  : RessourceDistributor.t :=
  match c with
  | Consume_one_unit => RessourceDistributor.consume_one_unit rd
  | Set_new_position depth => RessourceDistributor.set_new_position rd depth
  end.

Definition make_calls (rd : RessourceDistributor.t) (cs : list distributor_call)
  : RessourceDistributor.t :=
  fold_left make_call cs rd.


(** The units consumed by a sequence of calls, at whatever depth. *)
Fixpoint units_consumed (cs : list distributor_call) : Z :=
  match cs with
  | [] => 0
  | Consume_one_unit :: cs' => 1 + units_consumed cs'
  | Set_new_position _ :: cs' => units_consumed cs'
  end.

Section notions.
Context {G LM : Type} `{!GrammarNode.t G} `{!SentenceScore.t LM} `{!math.t}.


(** The pending entries paired with the scores, position by position. *)
Definition scored (scores : list Q) (pending : list (G * ref)) : list (Q * G * ref) :=
  zip_with (fun score entry => (score, fst entry, snd entry)) scores pending.

(** The best (score, text) pair after a sequence of scored leaves: replaced
    whenever a score is strictly greater. *)
Definition best_after (best : Q * string) (new : list (Q * G * ref)) : Q * string :=
  fold_left
    (fun b r => if Qgtb (fst (fst r)) (fst b) then (fst (fst r), GrammarNode.str (snd (fst r))) else b)
    new best.

(** The texts handed to the scorer for a pending sequence. *)
Definition texts (pending : list (G * ref)) : list string :=
  map (fun entry => GrammarNode.str (fst entry)) pending.

(** A buffer that is not full: it is empty or its length differs from its
    size. *)
Definition has_room (eb : EvalBuffer.t G LM) : Prop :=
  EvalBuffer.buffer eb = [] \/
  Z.of_nat (length (EvalBuffer.buffer eb)) <> EvalBuffer.buffer_size eb.

(** The states of a buffer that its methods can bring about. *)
Inductive buffer_reachable (buffer_size : Z) (lm_scorer : LM) : EvalBuffer.t G LM -> Prop :=
| reach_init : buffer_reachable buffer_size lm_scorer (EvalBuffer.__init__ buffer_size lm_scorer)
| reach_add : forall eb owner leaf,
    buffer_reachable buffer_size lm_scorer eb ->
    buffer_reachable buffer_size lm_scorer (EvalBuffer.add eb owner leaf)
| reach_force_eval : forall eb,
    buffer_reachable buffer_size lm_scorer eb ->
    buffer_reachable buffer_size lm_scorer (EvalBuffer.force_eval eb)
| reach_pop_results : forall eb,
    buffer_reachable buffer_size lm_scorer eb ->
    buffer_reachable buffer_size lm_scorer (snd (EvalBuffer.pop_results eb)).







(** The nodes a backpropagation from [self] updates: [self] and its
    ancestors along the parent links, up to the first frozen node, which is
    left out, or to a node without parent. *)
Fixpoint backpropagation_path (depth : nat) (h : list (CounterNode.t G)) (self : ref)
  : list ref :=
  match depth with
  | O => []
  | S depth' =>
      match h !! self with
      | Some n =>
          if CounterNode.freeze n then []
          else self :: match CounterNode.parent n with
                       | Some p => backpropagation_path depth' h p
                       | None => []
                       end
      | None => []
      end
  end.

(** Whether the path of a backpropagation ends within [depth] calls, at a
    frozen node or at a node without parent. *)
Fixpoint path_ends (depth : nat) (h : list (CounterNode.t G)) (self : ref) : bool :=
  match depth with
  | O => false
  | S depth' =>
      match h !! self with
      | Some n =>
          if CounterNode.freeze n then true
          else match CounterNode.parent n with
               | Some p => path_ends depth' h p
               | None => true
               end
      | None => false
      end
  end.

(** Solved nodes of a heap [h]: a node that has not been expanded has no
    child list; a solved node without child list wraps a terminal grammar
    node, and the children of a solved node are all there and solved. *)
Definition solved_ok (h : list (CounterNode.t G)) : Prop :=
  forall i n, h !! i = Some n ->
    (CounterNode._is_terminal n = true -> CounterNode._children n = None) /\
    (CounterNode.solved n = true ->
     match CounterNode._children n with
     | None => GrammarNode.is_terminal (CounterNode.reference_node n) = true
     | Some kids =>
         forall k, k ∈ kids -> exists kn, h !! k = Some kn /\ CounterNode.solved kn = true
     end).

(** From [h] to [h']: the same nodes, each with the grammar node, the child
    list, the expansion flag and the solved flag it had. *)
Definition shape_kept (h h' : list (CounterNode.t G)) : Prop :=
  length h' = length h /\
  forall i n, h !! i = Some n ->
    exists n', h' !! i = Some n' /\
      CounterNode.reference_node n' = CounterNode.reference_node n /\
      CounterNode._children n' = CounterNode._children n /\
      CounterNode._is_terminal n' = CounterNode._is_terminal n /\
      CounterNode.solved n' = CounterNode.solved n.

(** The observation points of a search: the state at the start of the loop
    of [single_search] and after each pass through its body. *)
Inductive observed (recursion_limit loop_fuel : nat) (start : MCTS.t G LM * ref * Z)
  : MCTS.t G LM * ref * Z -> Prop :=
| observed_start : observed recursion_limit loop_fuel start start
| observed_next : forall self root depth next,
    observed recursion_limit loop_fuel start (self, root, depth) ->
    MCTS.keep_searching self root = Ok true ->
    MCTS.iteration recursion_limit loop_fuel self root depth = Ok next ->
    observed recursion_limit loop_fuel start next.

End notions.

(** * Properties *)

(** ** CounterNode *)

Section counter_node_facts.
Context {G LM : Type} `{!GrammarNode.t G} `{!SentenceScore.t LM} `{!math.t}.

Implicit Types (h : list (CounterNode.t G)) (n : CounterNode.t G).

Lemma deref_Some h r n : h !! r = Some n -> CounterNode.deref h r = Ok n.
Proof. unfold CounterNode.deref. now intros ->. Qed.

Lemma deref_Ok h r n : CounterNode.deref h r = Ok n -> h !! r = Some n.
Proof. unfold CounterNode.deref. destruct (h !! r); now inversion 1. Qed.

Lemma lookup_map_fmap {A B : Type} (f : A -> B) (l : list A) (i : nat) :
  map f l !! i = f <$> l !! i.
Proof. change (map f l) with (f <$> l). apply list_lookup_fmap. Qed.

(** [expand] on a node whose grammar node is not terminal: the node gets the
    next free references as children and no longer counts as terminal. *)
Lemma expand_marks_node h self n :
  h !! self = Some n ->
  GrammarNode.is_terminal (CounterNode.reference_node n) = false ->
  let kids := GrammarNode.children (CounterNode.reference_node n) in
  exists h', CounterNode.expand h self = Ok h' /\
    h' !! self = Some (CounterNode.set_is_terminal false
                         (CounterNode.set_children (Some (seq (length h) (length kids))) n)).
Proof.
  intros Hn Hterm. pose proof (lookup_lt_Some _ _ _ Hn) as Hlt.
  unfold CounterNode.expand. rewrite (deref_Some _ _ _ Hn). cbn [bind]. rewrite Hterm.
  cbn zeta. eexists. split; [reflexivity|].
  rewrite list_lookup_alter_eq, lookup_app_l, Hn by exact Hlt. reflexivity.
Qed.

(** C3, as the code has it: [expand] raises on a terminal grammar node and on
    nothing else. On a node whose grammar node is not terminal it succeeds
    whether or not the node was expanded before: the children are created
    anew at the next free references and replace the former ones. *)
Theorem expand_guards_terminal_only h self n :
  h !! self = Some n ->
  (GrammarNode.is_terminal (CounterNode.reference_node n) = true ->
     CounterNode.expand h self = Raise (AssertionError "Try to expand a terminal node")) /\
  (GrammarNode.is_terminal (CounterNode.reference_node n) = false ->
     let kids := GrammarNode.children (CounterNode.reference_node n) in
     exists h', CounterNode.expand h self = Ok h' /\
       length h' = (length h + length kids)%nat /\
       h' !! self = Some (CounterNode.set_is_terminal false
                            (CounterNode.set_children (Some (seq (length h) (length kids))) n)) /\
       forall j g, kids !! j = Some g ->
         h' !! (length h + j)%nat = Some (CounterNode.__init__ g (Some self))).
Proof.
  intros Hn. pose proof (lookup_lt_Some _ _ _ Hn) as Hlt.
  unfold CounterNode.expand. rewrite (deref_Some _ _ _ Hn). cbn [bind].
  split; intros ->; [reflexivity|].
  cbn zeta. eexists. split; [reflexivity|]. split; [|split].
  - now rewrite length_alter, length_app, length_map.
  - rewrite list_lookup_alter_eq, lookup_app_l, Hn by exact Hlt. reflexivity.
  - intros j g Hg.
    rewrite list_lookup_alter_ne by lia.
    rewrite lookup_app_r by lia.
    replace (length h + j - length h)%nat with j by lia.
    now rewrite lookup_map_fmap, Hg.
Qed.

End counter_node_facts.

(** [expand_guards_terminal_only] on a terminal leaf, and at the root of the
    sample grammar once before and once after it has been expanded. *)
Lemma expand_guards_terminal_only_witness :
  CounterNode.expand [CounterNode.__init__ Sample.leaf_x None] 0
    = Raise (AssertionError "Try to expand a terminal node") /\
  exists h1 h2,
    CounterNode.expand [CounterNode.__init__ Sample.chain None] 0 = Ok h1 /\
    length h1 = 2%nat /\
    CounterNode.expand h1 0 = Ok h2 /\
    length h2 = 3%nat.
Proof.
  split.
  - destruct (expand_guards_terminal_only
                [CounterNode.__init__ Sample.leaf_x None] 0%nat _ eq_refl) as [H0 _].
    exact (H0 eq_refl).
  - destruct (expand_guards_terminal_only
                [CounterNode.__init__ Sample.chain None] 0%nat _ eq_refl) as [_ H1].
    destruct (H1 eq_refl) as (h1 & E1 & L1 & S1 & K1).
    destruct (expand_guards_terminal_only h1 0%nat _ S1) as [_ H2].
    destruct (H2 eq_refl) as (h2 & E2 & L2 & S2 & K2).
    exists h1, h2. split; [exact E1|]. split; [exact L1|]. split; [exact E2|].
    rewrite L2, L1. reflexivity.
Defined.

(** C3, as the claim states it, fails: a second [expand] of the same node
    does not raise; it hands the node a new child at reference 2. *)
Lemma expand_twice_does_not_raise :
  exists h1 h2,
    CounterNode.expand [CounterNode.__init__ Sample.chain None] 0 = Ok h1 /\
    CounterNode.is_terminal h1 0 = Ok false /\
    CounterNode.children h1 0 = Ok [1%nat] /\
    CounterNode.expand h1 0 = Ok h2 /\
    CounterNode.children h2 0 = Ok [2%nat].
Proof.
  eexists. eexists. split; [reflexivity|]. repeat split.
Qed.

Section backpropagation_facts.
Context {G : Type} `{!GrammarNode.t G}.

Implicit Types (h : list (CounterNode.t G)) (n : CounterNode.t G).

(** A frozen node is left as it is by a backpropagation, wherever it starts. *)
Lemma backpropagate_keeps_frozen depth : forall h start reward leaf h' self n,
  CounterNode.backpropagate depth h start reward leaf = Ok h' ->
  h !! self = Some n -> CounterNode.freeze n = true ->
  h' !! self = Some n.
Proof.
  induction depth as [|depth IH]; intros h start reward leaf h' self n; [discriminate|].
  cbn [CounterNode.backpropagate].
  destruct (CounterNode.deref h start) as [node|] eqn:Hd; [|discriminate].
  apply deref_Ok in Hd. cbn [bind].
  destruct (CounterNode.freeze node) eqn:Hf.
  - intros [= <-] Hn _. exact Hn.
  - intros Hrun Hn Hfz.
    assert (start <> self) as Hne by (intros ->; congruence).
    assert (alter (CounterNode.absorb reward leaf) start h !! self = Some n) as Hn'
      by now rewrite list_lookup_alter_ne.
    destruct (CounterNode.parent node) as [p|].
    + eapply IH; eauto.
    + now injection Hrun as <-.
Qed.

(** C7: on a frozen node [backpropagate] returns at once and the heap is the
    one it was given, so the node keeps its sums, its top reward and its top
    leaf and the parent is not called. No backpropagation, wherever it
    starts, changes the frozen node; one that starts at a child of the
    frozen node updates that child and nothing else. *)
Theorem backpropagate_frozen h self n reward leaf depth :
  h !! self = Some n ->
  CounterNode.freeze n = true ->
  CounterNode.backpropagate (S depth) h self reward leaf = Ok h /\
  (forall d start h',
     CounterNode.backpropagate d h start reward leaf = Ok h' -> h' !! self = Some n) /\
  (forall child c,
     h !! child = Some c -> CounterNode.freeze c = false ->
     CounterNode.parent c = Some self ->
     CounterNode.backpropagate (S (S depth)) h child reward leaf
       = Ok (alter (CounterNode.absorb reward leaf) child h)).
Proof.
  intros Hn Hf. split; [|split].
  - cbn [CounterNode.backpropagate]. rewrite (deref_Some _ _ _ Hn). cbn [bind].
    now rewrite Hf.
  - intros d start h' Hrun. eapply backpropagate_keeps_frozen; eauto.
  - intros child c Hc Hcf Hp.
    assert (child <> self) as Hne by (intros ->; congruence).
    cbn [CounterNode.backpropagate]. rewrite (deref_Some _ _ _ Hc). cbn [bind].
    rewrite Hcf, Hp.
    assert (alter (CounterNode.absorb reward leaf) child h !! self = Some n) as Hn'
      by now rewrite list_lookup_alter_ne.
    rewrite (deref_Some _ _ _ Hn'). cbn [bind]. now rewrite Hf.
Qed.

End backpropagation_facts.

(** [backpropagate_frozen] on [Sample.frozen_pair]: a reward of 1/2 for the root,
    and for its child. *)
Lemma backpropagate_frozen_witness :
  CounterNode.backpropagate 1 Sample.frozen_pair 0 (1 # 2) Sample.leaf_x = Ok Sample.frozen_pair /\
  CounterNode.backpropagate 2 Sample.frozen_pair 1 (1 # 2) Sample.leaf_x
    = Ok (alter (CounterNode.absorb (1 # 2) Sample.leaf_x) 1%nat Sample.frozen_pair).
Proof.
  destruct (backpropagate_frozen Sample.frozen_pair 0%nat _ (1 # 2) Sample.leaf_x 0%nat
              eq_refl eq_refl) as (H1 & _ & H3).
  split; [exact H1|]. exact (H3 1%nat _ eq_refl eq_refl eq_refl).
Defined.

Section barren_expansion.
Context {G : Type} `{!GrammarNode.t G} `{!math.t}.

Implicit Types (h : list (CounterNode.t G)) (n : CounterNode.t G).

Lemma children_of_empty_list h self n :
  h !! self = Some n -> CounterNode._children n = Some [] ->
  CounterNode.children h self = Raise CounterNode.not_expanded_yet.
Proof.
  intros Hn Hk. unfold CounterNode.children.
  rewrite (deref_Some _ _ _ Hn). cbn [bind]. now rewrite Hk.
Qed.

(** C10: when the grammar node is not terminal and has no child, [expand]
    succeeds and the node no longer counts as terminal, yet [children]
    raises the "not expanded yet" assertion on it, now and as long as its
    child list stays empty; the selection phase, which descends into the
    node, raises it too. *)
Theorem expand_without_children h self n :
  h !! self = Some n ->
  GrammarNode.is_terminal (CounterNode.reference_node n) = false ->
  GrammarNode.children (CounterNode.reference_node n) = [] ->
  exists h',
    CounterNode.expand h self = Ok h' /\
    CounterNode.is_terminal h' self = Ok false /\
    CounterNode.children h' self = Raise CounterNode.not_expanded_yet /\
    (forall fuel, MCTS.selection_phase (S fuel) h' self = Raise CounterNode.not_expanded_yet) /\
    (forall h'' n'', h'' !! self = Some n'' -> CounterNode._children n'' = Some [] ->
       CounterNode.children h'' self = Raise CounterNode.not_expanded_yet).
Proof.
  intros Hn Hterm Hkids.
  destruct (expand_marks_node h self n Hn Hterm) as (h' & E & Hself).
  rewrite Hkids in Hself. cbn [length seq] in Hself.
  exists h'. split; [exact E|]. split; [|split; [|split]].
  - unfold CounterNode.is_terminal. now rewrite (deref_Some _ _ _ Hself).
  - now apply (children_of_empty_list _ _ _ Hself).
  - intros fuel. unfold MCTS.selection_phase, MCTS.visit.
    rewrite (deref_Some _ _ _ Hself). cbn [bind MCTS.selection_loop].
    set (h2 := alter _ self h').
    assert (h2 !! self = Some (CounterNode.set_count
              (CounterNode.count n + 1)
              (CounterNode.set_is_terminal false (CounterNode.set_children (Some []) n))))
      as H2 by (unfold h2; now rewrite list_lookup_alter_eq, Hself).
    unfold CounterNode.is_terminal. rewrite (deref_Some _ _ _ H2). cbn [bind].
    cbn [CounterNode._is_terminal CounterNode.set_count CounterNode.set_is_terminal].
    unfold MCTS.selection_policy.
    now rewrite (children_of_empty_list _ _ _ H2).
  - intros h'' n''. apply children_of_empty_list.
Qed.

End barren_expansion.

(** [expand_without_children] at a root that is not terminal and has no
    child. *)
Lemma expand_without_children_witness :
  exists h',
    CounterNode.expand [CounterNode.__init__ Sample.barren None] 0 = Ok h' /\
    CounterNode.is_terminal h' 0 = Ok false /\
    CounterNode.children h' 0 = Raise CounterNode.not_expanded_yet /\
    MCTS.selection_phase 5 h' 0 = Raise CounterNode.not_expanded_yet.
Proof.
  destruct (@expand_without_children _ Sample.tree_grammar Sample.coarse_math
              [CounterNode.__init__ Sample.barren None] 0%nat _
              eq_refl eq_refl eq_refl) as (h' & E & T & K & Sel & _).
  exists h'. split; [exact E|]. split; [exact T|]. split; [exact K|]. exact (Sel 4%nat).
Defined.

(** ** RessourceDistributor *)

Section distributor_facts.
Context {G : Type} `{!GrammarNode.t G}.

Implicit Types (rd : RessourceDistributor.t) (cs : list distributor_call).

Lemma make_calls_strategy cs : forall rd,
  RessourceDistributor.strategy (make_calls rd cs) = RessourceDistributor.strategy rd.
Proof.
  unfold make_calls. induction cs as [|[|d] cs IH]; intros rd; cbn [fold_left]; [easy| |];
    now rewrite IH.
Qed.

Lemma make_calls_quota cs : forall rd,
  RessourceDistributor.ressources_to_consume_at_current_depth (make_calls rd cs)
  = RessourceDistributor.ressources_to_consume_at_current_depth rd.
Proof.
  unfold make_calls. induction cs as [|[|d] cs IH]; intros rd; cbn [fold_left]; [easy| |];
    now rewrite IH.
Qed.



(** The behaviour of the code on a strategy it does not name: the
    construction succeeds and assigns no quota, so the read of the quota in
    [should_go_down_into_the_tree] raises [AttributeError], whatever calls
    came before. *)
Lemma unknown_strategy_has_no_quota (strategy : string) (tree_root : G) (ressources : Z)
    (rng : nat) cs :
  String.eqb strategy "" = false ->
  String.eqb strategy "ALL_FROM_ROOT" = false ->
  String.eqb strategy "UNIFORM" = false ->
  exists rd,
    RessourceDistributor.__init__ strategy tree_root ressources rng = Ok (rd, rng) /\
    RessourceDistributor.strategy rd = strategy /\
    RessourceDistributor.ressources_to_consume_at_current_depth rd = None /\
    RessourceDistributor.should_go_down_into_the_tree (make_calls rd cs)
      = Raise (AttributeError "ressources_to_consume_at_current_depth").
Proof.
  intros H0 H1 H2. unfold RessourceDistributor.__init__. rewrite H0, H1, H2.
  eexists. split; [reflexivity|]. split; [reflexivity|]. split; [reflexivity|].
  unfold RessourceDistributor.should_go_down_into_the_tree.
  rewrite make_calls_strategy, make_calls_quota. cbn. now rewrite H1.
Qed.

End distributor_facts.


(** C4 on the code: the tag "LINEAR" is accepted by the constructor, and the
    first [should_go_down_into_the_tree] raises [AttributeError], where the
    same call under "UNIFORM" returns a boolean. *)
Lemma unknown_strategy_raises :
  exists rd uniform,
    RessourceDistributor.__init__ "LINEAR" Sample.chain 4 0%nat = Ok (rd, 0%nat) /\
    RessourceDistributor.should_go_down_into_the_tree
      (RessourceDistributor.consume_one_unit rd)
      = Raise (AttributeError "ressources_to_consume_at_current_depth") /\
    RessourceDistributor.__init__ "UNIFORM" Sample.chain 4 0%nat = Ok (uniform, 0%nat) /\
    RessourceDistributor.should_go_down_into_the_tree
      (RessourceDistributor.consume_one_unit uniform) = Ok false.
Proof.
  eexists. eexists. repeat split.
Qed.

(** ** EvalBuffer *)

Section eval_buffer_facts.
Context {G LM : Type} `{!GrammarNode.t G} `{!SentenceScore.t LM}.

Implicit Types (eb : EvalBuffer.t G LM) (pending : list (G * ref)).

Lemma record_scores_scored scores : forall pending results best_score best_sentence,
  EvalBuffer.record_scores scores pending results best_score best_sentence
  = (results ++ scored scores pending,
     fst (best_after (best_score, best_sentence) (scored scores pending)),
     snd (best_after (best_score, best_sentence) (scored scores pending))).
Proof.
  induction scores as [|score scores IH]; intros [|[leaf owner] pending] results bs bt;
    cbn [EvalBuffer.record_scores scored zip_with best_after fold_left fst snd];
    rewrite ?app_nil_r; try reflexivity.
  destruct (Qgtb score bs); rewrite IH, <- app_assoc; reflexivity.
Qed.

Lemma force_eval_empty eb : EvalBuffer.buffer eb = [] -> EvalBuffer.force_eval eb = eb.
Proof. unfold EvalBuffer.force_eval. now intros ->. Qed.

Lemma force_eval_unfold eb :
  EvalBuffer.buffer eb <> [] ->
  EvalBuffer.force_eval eb =
    let call := SentenceScore.compute_score (EvalBuffer.lm_scorer eb)
                  (texts (EvalBuffer.buffer eb)) in
    let new := scored (fst call) (EvalBuffer.buffer eb) in
    let best := best_after (EvalBuffer.best_score eb, EvalBuffer.best_sentence eb) new in
    EvalBuffer.mk (snd call) (EvalBuffer.buffer_size eb) []
      (EvalBuffer.results eb ++ new) (snd best) (fst best)
      (EvalBuffer.score_history eb ++ fst call).
Proof.
  intros Hne. unfold EvalBuffer.force_eval, texts.
  destruct (EvalBuffer.buffer eb) as [|e pending] eqn:Hb; [congruence|].
  destruct (SentenceScore.compute_score _ _) as [scores lm'].
  rewrite record_scores_scored. reflexivity.
Qed.

Lemma lookup_scored scores pending i s leaf owner :
  scores !! i = Some s -> pending !! i = Some (leaf, owner) ->
  scored scores pending !! i = Some (s, leaf, owner).
Proof.
  intros Hs Hp. unfold scored. rewrite lookup_zip_with, Hs. cbn. now rewrite Hp.
Qed.

(** C6: on a buffer that is not empty, [force_eval] makes one call to the
    scorer, on the texts of the pending entries in their order; the score at
    position [i] goes with the pending entry at position [i] into the
    results; all scores join the score history; the best score and sentence
    are replaced at each score strictly greater; the buffer is emptied. On an
    empty buffer [force_eval] changes nothing. *)
Theorem force_eval_pairs_by_position eb :
  (EvalBuffer.buffer eb = [] -> EvalBuffer.force_eval eb = eb) /\
  (EvalBuffer.buffer eb <> [] ->
   let call := SentenceScore.compute_score (EvalBuffer.lm_scorer eb)
                 (texts (EvalBuffer.buffer eb)) in
   let scores := fst call in
   let eb' := EvalBuffer.force_eval eb in
   EvalBuffer.lm_scorer eb' = snd call /\
   EvalBuffer.results eb' = EvalBuffer.results eb ++ scored scores (EvalBuffer.buffer eb) /\
   (forall i s leaf owner,
      scores !! i = Some s -> EvalBuffer.buffer eb !! i = Some (leaf, owner) ->
      EvalBuffer.results eb' !! (length (EvalBuffer.results eb) + i)%nat
        = Some (s, leaf, owner)) /\
   EvalBuffer.score_history eb' = EvalBuffer.score_history eb ++ scores /\
   (EvalBuffer.best_score eb', EvalBuffer.best_sentence eb')
     = best_after (EvalBuffer.best_score eb, EvalBuffer.best_sentence eb)
         (scored scores (EvalBuffer.buffer eb)) /\
   EvalBuffer.buffer eb' = [] /\
   EvalBuffer.buffer_size eb' = EvalBuffer.buffer_size eb).
Proof.
  split; [apply force_eval_empty|].
  intros Hne. cbn zeta. rewrite (force_eval_unfold eb Hne). cbn zeta.
  cbn [EvalBuffer.lm_scorer EvalBuffer.results EvalBuffer.score_history
       EvalBuffer.best_score EvalBuffer.best_sentence EvalBuffer.buffer
       EvalBuffer.buffer_size].
  repeat split.
  - intros i s leaf owner Hs Hp.
    rewrite lookup_app_r by lia.
    replace (length (EvalBuffer.results eb) + i - length (EvalBuffer.results eb))%nat
      with i by lia.
    now apply lookup_scored.
  - now destruct (best_after _ _).
Qed.

Lemma force_eval_has_room eb : has_room (EvalBuffer.force_eval eb).
Proof.
  left. destruct (EvalBuffer.buffer eb) as [|e l] eqn:Hb.
  - now rewrite force_eval_empty.
  - rewrite force_eval_unfold by congruence. reflexivity.
Qed.

Lemma add_has_room eb owner leaf : has_room (EvalBuffer.add eb owner leaf).
Proof.
  unfold EvalBuffer.add.
  match goal with |- has_room (if ?c then _ else _) => destruct c eqn:Hc end.
  - apply force_eval_has_room.
  - right. now apply Z.eqb_neq.
Qed.

Lemma reachable_has_room buffer_size lm_scorer eb :
  buffer_reachable buffer_size lm_scorer eb -> has_room eb.
Proof.
  induction 1 as [|eb owner leaf _ _|eb _ _|eb _ IH].
  - now left.
  - apply add_has_room.
  - apply force_eval_has_room.
  - exact IH.
Qed.

(** C5: for a dead-end leaf, [add] appends [(0, leaf, owner)] to the results
    and the leaf does not join the pending entries, so no call to the scorer
    carries its text. In every state the methods of the buffer can bring
    about, [add] does nothing else: the scorer is left as it was. *)
Theorem add_dead_end_bypasses_scorer eb owner leaf :
  GrammarNode.is_dead_end leaf = true ->
  (exists rest,
     EvalBuffer.results (EvalBuffer.add eb owner leaf)
       = EvalBuffer.results eb ++ (0%Q, leaf, owner) :: rest) /\
  (EvalBuffer.buffer (EvalBuffer.add eb owner leaf) = EvalBuffer.buffer eb \/
   EvalBuffer.buffer (EvalBuffer.add eb owner leaf) = []) /\
  (EvalBuffer.lm_scorer (EvalBuffer.add eb owner leaf) = EvalBuffer.lm_scorer eb \/
   EvalBuffer.lm_scorer (EvalBuffer.add eb owner leaf)
     = snd (SentenceScore.compute_score (EvalBuffer.lm_scorer eb)
              (texts (EvalBuffer.buffer eb)))) /\
  (forall buffer_size lm_scorer,
     buffer_reachable buffer_size lm_scorer eb ->
     EvalBuffer.add eb owner leaf
       = EvalBuffer.mk (EvalBuffer.lm_scorer eb) (EvalBuffer.buffer_size eb)
           (EvalBuffer.buffer eb) (EvalBuffer.results eb ++ [(0%Q, leaf, owner)])
           (EvalBuffer.best_sentence eb) (EvalBuffer.best_score eb)
           (EvalBuffer.score_history eb)).
Proof.
  intros Hdead. unfold EvalBuffer.add. rewrite Hdead.
  cbn [EvalBuffer.buffer EvalBuffer.buffer_size].
  set (eb1 := EvalBuffer.mk _ _ _ (_ ++ _) _ _ _).
  assert (EvalBuffer.buffer eb1 = EvalBuffer.buffer eb) as Hb1 by reflexivity.
  assert (EvalBuffer.results eb1 = EvalBuffer.results eb ++ [(0%Q, leaf, owner)]) as Hr1
    by reflexivity.
  assert (EvalBuffer.lm_scorer eb1 = EvalBuffer.lm_scorer eb) as Hs1 by reflexivity.
  destruct (Z.of_nat (length (EvalBuffer.buffer eb)) =? EvalBuffer.buffer_size eb) eqn:Hfull.
  - destruct (EvalBuffer.buffer eb) as [|e pending] eqn:Hb.
    + rewrite (force_eval_empty eb1 Hb1).
      split; [exists []; exact Hr1|]. split; [left; exact Hb1|]. split; [left; exact Hs1|].
      intros _ _ _. unfold eb1. now rewrite ?Hb.
    + assert (EvalBuffer.buffer eb1 <> []) as Hne by (rewrite Hb1; congruence).
      rewrite (force_eval_unfold eb1 Hne). cbn zeta.
      cbn [EvalBuffer.results EvalBuffer.buffer EvalBuffer.lm_scorer].
      split; [|split; [now right|split; [right; now rewrite Hb1, Hs1|]]].
      * eexists. rewrite Hr1, <- app_assoc. reflexivity.
      * intros buffer_size lm_scorer Hreach.
        apply reachable_has_room in Hreach. apply Z.eqb_eq in Hfull.
        destruct Hreach as [Habs|Habs]; [congruence|]. now rewrite Hb in Habs.
  - split; [exists []; exact Hr1|]. split; [left; exact Hb1|]. split; [left; exact Hs1|].
    reflexivity.
Qed.

End eval_buffer_facts.

(** [force_eval_pairs_by_position] on a buffer with the leaves "x" and "yy"
    pending: one call with both texts, in order, and the scores 1 and 2 at
    the places of their leaves. *)
Lemma force_eval_pairs_by_position_witness :
  let eb' := EvalBuffer.force_eval Sample.two_pending in
  EvalBuffer.lm_scorer eb' = [["x"; "yy"]]%string /\
  EvalBuffer.results eb' = [(1%Q, Sample.leaf_x, 0%nat); (2%Q, Sample.leaf_yy, 1%nat)] /\
  EvalBuffer.score_history eb' = [1%Q; 2%Q] /\
  (EvalBuffer.best_score eb', EvalBuffer.best_sentence eb') = (2%Q, "yy"%string) /\
  EvalBuffer.buffer eb' = [].
Proof.
  destruct (force_eval_pairs_by_position Sample.two_pending) as [_ H].
  assert (EvalBuffer.buffer Sample.two_pending <> []) as Hne by discriminate.
  destruct (H Hne) as (Hs & Hr & _ & Hh & Hbest & Hb & _).
  cbn zeta. split; [exact Hs|]. split; [exact Hr|]. split; [exact Hh|].
  split; [exact Hbest|exact Hb].
Defined.

(** [add_dead_end_bypasses_scorer] on the same buffer: the dead-end leaf goes
    to the results with reward 0, the two leaves stay pending and the scorer
    has received no call. *)
Lemma add_dead_end_bypasses_scorer_witness :
  EvalBuffer.add Sample.two_pending 2 Sample.leaf_dead
  = EvalBuffer.mk [] 3 [(Sample.leaf_x, 0%nat); (Sample.leaf_yy, 1%nat)]
      [(0%Q, Sample.leaf_dead, 2%nat)] "" (-1)%Q [].
Proof.
  destruct (@add_dead_end_bypasses_scorer _ _ Sample.tree_grammar Sample.stub_scorer
              Sample.two_pending 2%nat Sample.leaf_dead eq_refl) as (_ & _ & _ & H).
  exact (H 3 [] (reach_add _ _ _ _ _ (reach_add _ _ _ _ _ (reach_init _ _)))).
Defined.

(** ** MCTS: selection and UCB *)

Section selection_facts.
Context {G : Type} `{!GrammarNode.t G} `{!math.t}.

Implicit Types (h : list (CounterNode.t G)) (n : CounterNode.t G).


Lemma truediv_count (a : Q) (c : Z) :
  c <> 0 -> truediv a (inject_Z c) = Ok (a / inject_Z c)%Q.
Proof.
  intros Hc. unfold truediv.
  replace (Qeq_bool (inject_Z c) 0) with false; [reflexivity|].
  symmetry. unfold Qeq_bool. cbn. apply Z.eqb_neq. lia.
Qed.



Lemma first_unvisited_elem h kids child :
  MCTS.first_unvisited h kids = Ok (Some child) -> child ∈ kids.
Proof.
  induction kids as [|k kids IH]; cbn [MCTS.first_unvisited]; [discriminate|].
  destruct (CounterNode.deref h k) as [kn|]; [|discriminate]. cbn [bind].
  destruct (CounterNode.count kn =? 0).
  - intros [= ->]. apply list_elem_of_here.
  - intros Hrest. apply list_elem_of_further. now apply IH.
Qed.

Lemma unsolved_children_elem h kids : forall unsolved x,
  MCTS.unsolved_children h kids = Ok unsolved -> x ∈ unsolved -> x ∈ kids.
Proof.
  induction kids as [|k kids IH]; intros unsolved x; cbn [MCTS.unsolved_children].
  - intros [= <-]. easy.
  - destruct (CounterNode.deref h k) as [kn|]; [|discriminate]. cbn [bind].
    destruct (MCTS.unsolved_children h kids) as [others|]; [|discriminate]. cbn [bind].
    intros [= <-] Hx. destruct (CounterNode.solved kn).
    + apply list_elem_of_further. eapply IH; eauto.
    + apply elem_of_cons in Hx as [->|Hx]; [apply list_elem_of_here|].
      apply list_elem_of_further. eapply IH; eauto.
Qed.

Lemma max_loop_elem {A : Type} (key : A -> result Q) (l : list A) : forall best best_key x,
  MCTS.max_loop key best best_key l = Ok x -> x = best \/ x ∈ l.
Proof.
  induction l as [|y l IH]; intros best best_key x; cbn [MCTS.max_loop].
  - intros [= ->]. now left.
  - destruct (key y) as [k|]; [|discriminate]. cbn [bind].
    destruct (Qgtb k best_key); intros Hx; apply IH in Hx as [->|Hx];
      try (right; apply list_elem_of_here); try (right; now apply list_elem_of_further).
    now left.
Qed.

Lemma py_max_elem {A : Type} (key : A -> result Q) (l : list A) (x : A) :
  MCTS.py_max key l = Ok x -> x ∈ l.
Proof.
  destruct l as [|y l]; cbn [MCTS.py_max]; [discriminate|].
  destruct (key y) as [k|]; [|discriminate]. cbn [bind].
  intros Hx. apply max_loop_elem in Hx as [->|Hx];
    [apply list_elem_of_here|now apply list_elem_of_further].
Qed.









(** The node chosen by [selection_policy] is one of the children of the
    node it is asked about. *)
Lemma selection_policy_elem h counter_node next :
  MCTS.selection_policy h counter_node = Ok next ->
  exists n kids,
    h !! counter_node = Some n /\ CounterNode._children n = Some kids /\ next ∈ kids.
Proof.
  unfold MCTS.selection_policy, CounterNode.children.
  destruct (CounterNode.deref h counter_node) as [n|] eqn:Hn; [|discriminate].
  apply deref_Ok in Hn. cbn [bind].
  destruct (CounterNode._children n) as [[|c cs]|] eqn:Hk; try discriminate. cbn [bind].
  destruct (MCTS.first_unvisited h (c :: cs)) as [[child|]|] eqn:Hfirst; try discriminate;
    cbn [bind].
  - intros [= ->]. exists n, (c :: cs). repeat split; try assumption.
    eapply first_unvisited_elem; eauto.
  - destruct (MCTS.unsolved_children h (c :: cs)) as [unsolved|] eqn:Hu; [|discriminate].
    cbn [bind]. intros Hmax. apply py_max_elem in Hmax.
    exists n, (c :: cs). repeat split; try assumption.
    eapply unsolved_children_elem; eauto.
Qed.


End selection_facts.


(** ** MCTS: the end of a search *)

Section final_flush_facts.
Context {G LM : Type} `{!GrammarNode.t G} `{!SentenceScore.t LM} `{!math.t}.

(** What [single_search] does once its loop has ended: the buffer is flushed
    and that is all; the counter nodes are those the loop left. *)
Lemma single_search_final_flush (recursion_limit loop_fuel : nat)
    (self : MCTS.t G LM) (root : G) (r : ref) (final : MCTS.t G LM) :
  MCTS.single_search recursion_limit loop_fuel self root = Ok (r, final) ->
  exists at_exit,
    MCTS.search_loop recursion_limit loop_fuel loop_fuel
      (MCTS.set_nodes (MCTS.nodes self ++ [CounterNode.__init__ root None]) self)
      (length (MCTS.nodes self)) 1 = Ok at_exit /\
    r = length (MCTS.nodes self) /\
    MCTS.nodes final = MCTS.nodes at_exit /\
    MCTS.eval_buffer final = EvalBuffer.force_eval (MCTS.eval_buffer at_exit).
Proof.
  unfold MCTS.single_search, CounterNode.new.
  destruct (MCTS.search_loop _ _ _ _ _ _) as [at_exit|]; [|discriminate].
  cbn [bind]. intros [= <- <-]. exists at_exit. repeat split.
Qed.

End final_flush_facts.

(** C1 on the code: one walk with a buffer of size 2. The leaf "yy" is
    still pending when the loop ends; the final [force_eval] scores it (2)
    and leaves the triple in the results, and the root it belongs to keeps
    the statistics of a node that received no reward. *)
Lemma final_flush_is_not_backpropagated :
  exists final root,
    MCTS.search 100 100 (Sample.engine "ALL_FROM_ROOT" 2) Sample.chain 1
      = Ok ("yy"%string, 2%Q, 0%nat, final) /\
    EvalBuffer.results (MCTS.eval_buffer final) = [(2%Q, Sample.leaf_yy, 0%nat)] /\
    EvalBuffer.buffer (MCTS.eval_buffer final) = [] /\
    MCTS.nodes final !! 0%nat = Some root /\
    CounterNode.count root = 1 /\
    CounterNode.sum_rewards root = 0%Q /\
    CounterNode.sum_of_square_rewards root = 0%Q /\
    CounterNode.top_reward root = (-1)%Q /\
    CounterNode.top_leaf_node root = None.
Proof.
  eexists. eexists. split; [vm_compute; reflexivity|]. repeat split.
Qed.

(** The same search with two restarts of one walk each: the triple left by
    the first run is popped during the second one and backpropagated to
    the root of the first run (reference 0), while the root of the second
    run (reference 2) ends without a reward in its turn. *)
Lemma flushed_results_reach_the_next_restart :
  exists final first second,
    MCTS.search 100 100 (MCTS.__init__ [] "ALL_FROM_ROOT" 2 2 0%nat) Sample.chain 2
      = Ok ("yy"%string, 2%Q, 2%nat, final) /\
    MCTS.nodes final !! 0%nat = Some first /\
    CounterNode.sum_rewards first = 2%Q /\
    MCTS.nodes final !! 2%nat = Some second /\
    CounterNode.parent second = None /\
    CounterNode.sum_rewards second = 0%Q /\
    EvalBuffer.results (MCTS.eval_buffer final) = [(2%Q, Sample.leaf_yy, 2%nat)].
Proof.
  eexists. eexists. eexists. split; [vm_compute; reflexivity|]. repeat split.
Qed.

(** ** MCTS: visit counts *)

Section visit_count_facts.
Context {G LM : Type} `{!GrammarNode.t G} `{!SentenceScore.t LM} `{!math.t}.

Implicit Types (h : list (CounterNode.t G)) (n : CounterNode.t G).











Lemma absorb_links reward leaf n :
  CounterNode.parent (CounterNode.absorb reward leaf n) = CounterNode.parent n /\
  CounterNode._children (CounterNode.absorb reward leaf n) = CounterNode._children n /\
  CounterNode.freeze (CounterNode.absorb reward leaf n) = CounterNode.freeze n /\
  CounterNode.count (CounterNode.absorb reward leaf n) = CounterNode.count n.
Proof. unfold CounterNode.absorb. cbn. now destruct (Qgtb _ _). Qed.




Lemma visit_Ok h x h' :
  MCTS.visit h x = Ok h' ->
  exists xn, h !! x = Some xn /\
    h' = alter (fun n => CounterNode.set_count (CounterNode.count n + 1) n) x h.
Proof.
  unfold MCTS.visit. destruct (CounterNode.deref h x) as [xn|] eqn:Hx; [|discriminate].
  apply deref_Ok in Hx. cbn [bind]. intros [= <-]. now exists xn.
Qed.










Lemma children_Ok h node kids :
  CounterNode.children h node = Ok kids ->
  exists n, h !! node = Some n /\ CounterNode._children n = Some kids.
Proof.
  unfold CounterNode.children.
  destruct (CounterNode.deref h node) as [n|] eqn:Hn; [|discriminate].
  apply deref_Ok in Hn. cbn [bind].
  destruct (CounterNode._children n) as [[|c cs]|] eqn:Hk; try discriminate.
  intros [= <-]. now exists n.
Qed.





Lemma search_loop_observed recursion_limit loop_fuel start fuel :
  forall (self : MCTS.t G LM) root depth at_exit,
  observed recursion_limit loop_fuel start (self, root, depth) ->
  MCTS.search_loop recursion_limit loop_fuel fuel self root depth = Ok at_exit ->
  exists root' depth', observed recursion_limit loop_fuel start (at_exit, root', depth').
Proof.
  induction fuel as [|fuel IH]; intros self root depth at_exit Hobs; [discriminate|].
  cbn [MCTS.search_loop].
  destruct (MCTS.keep_searching self root) as [[|]|] eqn:Hkeep; try discriminate; cbn [bind].
  - destruct (MCTS.iteration _ _ self root depth) as [[[self' root'] depth']|] eqn:Hiter;
      [|discriminate].
    cbn [bind]. apply IH. eapply observed_next; eauto.
  - intros [= <-]. eauto.
Qed.


End visit_count_facts.



(** * Further properties *)

(** ** EvalBuffer: batching, pairing and the best score *)

Section eval_buffer_batching.
Context {G LM : Type} `{!GrammarNode.t G} `{!SentenceScore.t LM}.

Implicit Types (eb : EvalBuffer.t G LM) (pending : list (G * ref)).

Lemma force_eval_buffer_size eb :
  EvalBuffer.buffer_size (EvalBuffer.force_eval eb) = EvalBuffer.buffer_size eb.
Proof.
  destruct (EvalBuffer.buffer eb) as [|e l] eqn:Hb.
  - now rewrite force_eval_empty.
  - rewrite force_eval_unfold by congruence. reflexivity.
Qed.

Lemma force_eval_buffer_nil eb : EvalBuffer.buffer (EvalBuffer.force_eval eb) = [].
Proof.
  destruct (EvalBuffer.buffer eb) as [|e l] eqn:Hb.
  - now rewrite force_eval_empty.
  - rewrite force_eval_unfold by congruence. reflexivity.
Qed.

Lemma add_buffer_size eb owner leaf :
  EvalBuffer.buffer_size (EvalBuffer.add eb owner leaf) = EvalBuffer.buffer_size eb.
Proof.
  unfold EvalBuffer.add.
  match goal with |- context [if ?c then _ else _] => destruct c end;
    destruct (GrammarNode.is_dead_end leaf); rewrite ?force_eval_buffer_size; reflexivity.
Qed.

(** X1: a buffer built with a size of at least 1 never holds as many
    pending entries as its size: [add] flushes it when the size is reached.
    With a size of 0 or less, [add] of a leaf that is no dead end only
    appends it: nothing but [force_eval] empties such a buffer. *)
Theorem buffer_stays_below_its_size (buffer_size : Z) (lm_scorer : LM) eb :
  buffer_reachable buffer_size lm_scorer eb ->
  EvalBuffer.buffer_size eb = buffer_size /\
  (1 <= buffer_size -> Z.of_nat (length (EvalBuffer.buffer eb)) < buffer_size) /\
  (buffer_size <= 0 -> forall owner leaf,
     GrammarNode.is_dead_end leaf = false ->
     EvalBuffer.add eb owner leaf
       = EvalBuffer.mk (EvalBuffer.lm_scorer eb) (EvalBuffer.buffer_size eb)
           (EvalBuffer.buffer eb ++ [(leaf, owner)]) (EvalBuffer.results eb)
           (EvalBuffer.best_sentence eb) (EvalBuffer.best_score eb)
           (EvalBuffer.score_history eb)).
Proof.
  intros Hreach.
  assert (EvalBuffer.buffer_size eb = buffer_size /\
          (1 <= buffer_size -> Z.of_nat (length (EvalBuffer.buffer eb)) < buffer_size))
    as [Hsize Hbelow].
  { induction Hreach as [|eb owner leaf _ [IHs IHb]|eb _ [IHs IHb]|eb _ IH].
    - split; [reflexivity|]. cbn. lia.
    - split; [now rewrite add_buffer_size|]. intros Hone. specialize (IHb Hone).
      unfold EvalBuffer.add.
      match goal with |- context [if ?c then _ else _] => destruct c eqn:Hfull end.
      + rewrite force_eval_buffer_nil. cbn. lia.
      + apply Z.eqb_neq in Hfull. revert Hfull.
        destruct (GrammarNode.is_dead_end leaf); cbn [EvalBuffer.buffer EvalBuffer.buffer_size];
          rewrite ?length_app; cbn [length]; lia.
    - split; [now rewrite force_eval_buffer_size|]. intros Hone.
      rewrite force_eval_buffer_nil. cbn. lia.
    - exact IH. }
  split; [exact Hsize|]. split; [exact Hbelow|].
  intros Hzero owner leaf Hlive. unfold EvalBuffer.add. rewrite Hlive.
  cbn [EvalBuffer.buffer EvalBuffer.buffer_size].
  replace (Z.of_nat (length (EvalBuffer.buffer eb ++ [(leaf, owner)]))
           =? EvalBuffer.buffer_size eb) with false; [reflexivity|].
  symmetry. apply Z.eqb_neq. rewrite length_app. cbn [length]. lia.
Qed.

Lemma scored_entries scores : forall pending,
  map (fun r => (snd (fst r), snd r)) (scored scores pending) = take (length scores) pending /\
  map (fun r => fst (fst r)) (scored scores pending) = take (length pending) scores.
Proof.
  unfold scored. induction scores as [|s scores IH]; intros [|[leaf owner] pending];
    cbn; try (split; reflexivity).
  destruct (IH pending) as [IH1 IH2]. rewrite IH1, IH2. split; reflexivity.
Qed.

(** X2: [force_eval] pairs the scores and the pending entries as long as
    both last: the new results carry the first entries, in order, as many
    as there are scores, and the first scores, as many as there are
    entries. A scorer that returns fewer scores than texts makes the last
    entries vanish without a result; one that returns a score for each text
    loses none. *)
Theorem force_eval_keeps_paired_entries eb :
  EvalBuffer.buffer eb <> [] ->
  let scores := fst (SentenceScore.compute_score (EvalBuffer.lm_scorer eb)
                       (texts (EvalBuffer.buffer eb))) in
  let new := drop (length (EvalBuffer.results eb))
               (EvalBuffer.results (EvalBuffer.force_eval eb)) in
  take (length (EvalBuffer.results eb)) (EvalBuffer.results (EvalBuffer.force_eval eb))
    = EvalBuffer.results eb /\
  map (fun r => (snd (fst r), snd r)) new = take (length scores) (EvalBuffer.buffer eb) /\
  map (fun r => fst (fst r)) new = take (length (EvalBuffer.buffer eb)) scores /\
  (length scores = length (EvalBuffer.buffer eb) ->
   map (fun r => (snd (fst r), snd r)) new = EvalBuffer.buffer eb /\
   map (fun r => fst (fst r)) new = scores).
Proof.
  intros Hne. cbn zeta. rewrite (force_eval_unfold eb Hne). cbn zeta.
  cbn [EvalBuffer.results].
  rewrite take_app_length, drop_app_length.
  destruct (scored_entries
              (fst (SentenceScore.compute_score (EvalBuffer.lm_scorer eb)
                      (texts (EvalBuffer.buffer eb)))) (EvalBuffer.buffer eb)) as [H1 H2].
  split; [reflexivity|]. split; [exact H1|]. split; [exact H2|].
  intros Hlen. rewrite H1, H2. split.
  - rewrite Hlen. apply firstn_all.
  - rewrite <- Hlen. apply firstn_all.
Qed.

Lemma Qgtb_false (a b : Q) : Qgtb a b = false -> (a <= b)%Q.
Proof.
  unfold Qgtb. intros Hab. apply Qle_bool_iff. now destruct (Qle_bool a b).
Qed.

Lemma Qgtb_true (a b : Q) : Qgtb a b = true -> (b <= a)%Q.
Proof.
  unfold Qgtb. intros Hab. apply Qlt_le_weak, Qnot_le_lt. intros Hle.
  apply Qle_bool_iff in Hle. now rewrite Hle in Hab.
Qed.

(** The best pair after a sequence of scored leaves: its score is at least
    the former best and every score of the sequence, and it is the former
    pair or the score and text of one of the leaves. *)
Lemma best_after_bounds (new : list (Q * G * ref)) : forall best : Q * string,
  (fst best <= fst (best_after best new))%Q /\
  Forall (fun r => (fst (fst r) <= fst (best_after best new))%Q) new /\
  (best_after best new = best \/
   exists r, r ∈ new /\ best_after best new = (fst (fst r), GrammarNode.str (snd (fst r)))).
Proof.
  unfold best_after. induction new as [|r new IH]; intros best; cbn [fold_left].
  - split; [apply Qle_refl|]. split; [constructor|now left].
  - destruct (Qgtb (fst (fst r)) (fst best)) eqn:Hgt.
    + destruct (IH (fst (fst r), GrammarNode.str (snd (fst r)))) as (Hle & Hall & Hwho).
      cbn [fst] in Hle. split; [|split].
      * eapply Qle_trans; [apply Qgtb_true; exact Hgt|exact Hle].
      * constructor; [exact Hle|exact Hall].
      * right. destruct Hwho as [->|(r' & Hin & ->)].
        -- exists r. split; [apply list_elem_of_here|reflexivity].
        -- exists r'. split; [now apply list_elem_of_further|reflexivity].
    + destruct (IH best) as (Hle & Hall & Hwho). split; [exact Hle|]. split.
      * constructor; [|exact Hall].
        eapply Qle_trans; [apply Qgtb_false; exact Hgt|exact Hle].
      * destruct Hwho as [->|(r' & Hin & ->)]; [now left|right].
        exists r'. split; [now apply list_elem_of_further|reflexivity].
Qed.

Lemma force_eval_best eb :
  (forall lm ts, (length (fst (SentenceScore.compute_score lm ts)) <= length ts)%nat) ->
  (EvalBuffer.best_score eb = (-1)%Q \/
   EvalBuffer.best_score eb ∈ EvalBuffer.score_history eb) ->
  Forall (fun s => (s <= EvalBuffer.best_score eb)%Q) (EvalBuffer.score_history eb) ->
  (EvalBuffer.best_score (EvalBuffer.force_eval eb) = (-1)%Q \/
   EvalBuffer.best_score (EvalBuffer.force_eval eb)
     ∈ EvalBuffer.score_history (EvalBuffer.force_eval eb)) /\
  Forall (fun s => (s <= EvalBuffer.best_score (EvalBuffer.force_eval eb))%Q)
    (EvalBuffer.score_history (EvalBuffer.force_eval eb)).
Proof.
  intros Hcontract Hwho Hall.
  destruct (EvalBuffer.buffer eb) as [|e l] eqn:Hb.
  { rewrite force_eval_empty by exact Hb. now split. }
  assert (EvalBuffer.buffer eb <> []) as Hne by congruence. clear Hb.
  rewrite (force_eval_unfold eb Hne). cbn zeta.
  cbn [EvalBuffer.best_score EvalBuffer.score_history].
  set (scores := fst (SentenceScore.compute_score _ _)).
  set (new := scored scores (EvalBuffer.buffer eb)).
  destruct (best_after_bounds new (EvalBuffer.best_score eb, EvalBuffer.best_sentence eb))
    as (Hle & Hnew & Hbest). cbn [fst] in Hle.
  assert (map (fun r => fst (fst r)) new = scores) as Hscores.
  { unfold new. rewrite (proj2 (scored_entries scores (EvalBuffer.buffer eb))).
    apply firstn_all2. unfold scores.
    etransitivity; [apply Hcontract|]. unfold texts. now rewrite length_map. }
  split.
  - destruct Hbest as [->|(r & Hin & ->)]; cbn [fst].
    + destruct Hwho as [Hinit|Hin]; [now left|right].
      apply elem_of_app. now left.
    + right. apply elem_of_app. right. rewrite <- Hscores.
      change (map (λ r0 : Q * G * ref, r0.1.1) new) with ((λ r0 : Q * G * ref, r0.1.1) <$> new).
      now apply (list_elem_of_fmap_2 (λ r0 : Q * G * ref, r0.1.1)).
  - apply Forall_app. split.
    + eapply Forall_impl; [exact Hall|]. intros s Hs. cbn beta in Hs.
      eapply Qle_trans; [exact Hs|exact Hle].
    + rewrite <- Hscores.
      change (map (λ r0 : Q * G * ref, r0.1.1) new) with ((λ r0 : Q * G * ref, r0.1.1) <$> new).
      now apply Forall_fmap.
Qed.

(** X3: when the scorer returns no more scores than it is given texts, the
    best score of a buffer is the greatest score the scorer has returned so
    far: it is -1 or one of the scores of the history, and no score of the
    history exceeds it. *)
Theorem best_score_is_the_greatest_seen (buffer_size : Z) (lm_scorer : LM) eb :
  (forall lm ts, (length (fst (SentenceScore.compute_score lm ts)) <= length ts)%nat) ->
  buffer_reachable buffer_size lm_scorer eb ->
  (EvalBuffer.best_score eb = (-1)%Q \/
   EvalBuffer.best_score eb ∈ EvalBuffer.score_history eb) /\
  Forall (fun s => (s <= EvalBuffer.best_score eb)%Q) (EvalBuffer.score_history eb).
Proof.
  intros Hcontract Hreach.
  induction Hreach as [|eb owner leaf _ [IHw IHa]|eb _ [IHw IHa]|eb _ IH].
  - split; [now left|constructor].
  - unfold EvalBuffer.add.
    match goal with |- context [if ?c then _ else _] => destruct c end;
      destruct (GrammarNode.is_dead_end leaf);
      try (apply force_eval_best; [exact Hcontract|exact IHw|exact IHa]);
      split; assumption.
  - now apply force_eval_best.
  - exact IH.
Qed.

End eval_buffer_batching.

(** [buffer_stays_below_its_size] on the buffer of size 3 with two leaves
    pending. *)
Lemma buffer_stays_below_its_size_witness :
  Z.of_nat (length (EvalBuffer.buffer Sample.two_pending)) < 3.
Proof.
  refine (proj1 (proj2 (buffer_stays_below_its_size 3 [] Sample.two_pending
                          (reach_add _ _ _ _ _ (reach_add _ _ _ _ _ (reach_init _ _))))) _).
  lia.
Defined.

(** [force_eval_keeps_paired_entries] on the same buffer, whose scorer
    returns a score for each text. *)
Lemma force_eval_keeps_paired_entries_witness :
  map (fun r => (snd (fst r), snd r))
    (drop 0 (EvalBuffer.results (EvalBuffer.force_eval Sample.two_pending)))
  = [(Sample.leaf_x, 0%nat); (Sample.leaf_yy, 1%nat)].
Proof.
  assert (EvalBuffer.buffer Sample.two_pending <> []) as Hne by discriminate.
  destruct (force_eval_keeps_paired_entries Sample.two_pending Hne) as (_ & _ & _ & Hall).
  exact (proj1 (Hall eq_refl)).
Defined.

Lemma stub_scorer_contract (lm : list (list string)) (ts : list string) :
  (length (fst (SentenceScore.compute_score lm ts)) <= length ts)%nat.
Proof. cbn. now rewrite length_map. Qed.

(** [best_score_is_the_greatest_seen] on the same buffer once flushed: the
    scores 1 and 2 are at most the best score. *)
Lemma best_score_is_the_greatest_seen_witness :
  Forall (fun s => (s <= EvalBuffer.best_score (EvalBuffer.force_eval Sample.two_pending))%Q)
    [1%Q; 2%Q].
Proof.
  exact (proj2 (best_score_is_the_greatest_seen 3 [] (EvalBuffer.force_eval Sample.two_pending)
                  stub_scorer_contract
                  (reach_force_eval _ _ _
                     (reach_add _ _ _ _ _ (reach_add _ _ _ _ _ (reach_init _ _)))))).
Defined.

(** ** RessourceDistributor: the budget *)

Section distributor_budget.
Context {G : Type} `{!GrammarNode.t G}.

Implicit Types (rd : RessourceDistributor.t) (cs : list distributor_call).

(** X4: the total budget and the units consumed in total are untouched by
    [set_new_position]: after any sequence of calls the units consumed are
    those consumed before plus one for each [consume_one_unit], and
    [still_has_ressources] compares that sum with the budget. *)
Theorem budget_ignores_position cs : forall rd,
  RessourceDistributor.ressources_to_consume (make_calls rd cs)
    = RessourceDistributor.ressources_to_consume rd /\
  RessourceDistributor.ressources_already_consumed (make_calls rd cs)
    = RessourceDistributor.ressources_already_consumed rd + units_consumed cs /\
  RessourceDistributor.still_has_ressources (make_calls rd cs)
    = (RessourceDistributor.ressources_already_consumed rd + units_consumed cs
       <? RessourceDistributor.ressources_to_consume rd) /\
  RessourceDistributor.still_has_ressources (make_calls (RessourceDistributor.reset rd) cs)
    = (units_consumed cs <? RessourceDistributor.ressources_to_consume rd).
Proof.
  assert (forall rd,
    RessourceDistributor.ressources_to_consume (make_calls rd cs)
      = RessourceDistributor.ressources_to_consume rd /\
    RessourceDistributor.ressources_already_consumed (make_calls rd cs)
      = RessourceDistributor.ressources_already_consumed rd + units_consumed cs) as Hboth.
  { unfold make_calls. induction cs as [|[|d] cs IH]; intros rd;
      cbn [fold_left units_consumed make_call].
    - split; [reflexivity|lia].
    - destruct (IH (RessourceDistributor.consume_one_unit rd)) as [-> ->]. cbn. split; [reflexivity|lia].
    - destruct (IH (RessourceDistributor.set_new_position rd d)) as [-> ->]. now cbn. }
  intros rd. destruct (Hboth rd) as [Htotal Hused].
  split; [exact Htotal|]. split; [exact Hused|]. split.
  - unfold RessourceDistributor.still_has_ressources. now rewrite Htotal, Hused.
  - destruct (Hboth (RessourceDistributor.reset rd)) as [Htotal' Hused'].
    unfold RessourceDistributor.still_has_ressources. rewrite Htotal', Hused'. reflexivity.
Qed.

(** X5: the constructor at its edges. The empty tag stands for
    ALL_FROM_ROOT; under UNIFORM an estimated mean depth of 0 raises
    [ZeroDivisionError] and no distributor is made; a distributor that has
    been made starts at depth 1 with nothing consumed, so it has resources
    exactly when its budget is positive. *)
Theorem distributor_construction_edges (strategy : string) (tree_root : G) (ressources : Z)
    (rng : nat) :
  RessourceDistributor.__init__ "" tree_root ressources rng
    = RessourceDistributor.__init__ "ALL_FROM_ROOT" tree_root ressources rng /\
  (Qeq_bool (fst (GrammarNode.estimate_mean_depth tree_root 50 rng)) 0 = true ->
   RessourceDistributor.__init__ "UNIFORM" tree_root ressources rng = Raise ZeroDivisionError) /\
  (forall rd rng',
     RessourceDistributor.__init__ strategy tree_root ressources rng = Ok (rd, rng') ->
     RessourceDistributor.ressources_to_consume rd = ressources /\
     RessourceDistributor.current_depth rd = 1 /\
     RessourceDistributor.ressources_already_consumed rd = 0 /\
     RessourceDistributor.ressources_already_consumed_at_current_depth rd = 0 /\
     RessourceDistributor.still_has_ressources rd = (0 <? ressources)).
Proof.
  split; [reflexivity|]. split.
  - intros Hzero. unfold RessourceDistributor.__init__. cbn [String.eqb Ascii.eqb Bool.eqb].
    destruct (GrammarNode.estimate_mean_depth tree_root 50 rng) as [average_depth r].
    cbn [fst] in Hzero. unfold truediv. now rewrite Hzero.
  - intros rd rng'. unfold RessourceDistributor.__init__.
    destruct (String.eqb strategy ""); cbn [String.eqb Ascii.eqb Bool.eqb].
    + intros [= <- <-]. now repeat split.
    + destruct (String.eqb strategy "ALL_FROM_ROOT"); [intros [= <- <-]; now repeat split|].
      destruct (String.eqb strategy "UNIFORM"); [|intros [= <- <-]; now repeat split].
      destruct (GrammarNode.estimate_mean_depth tree_root 50 rng) as [average_depth r].
      destruct (truediv _ average_depth) as [q|]; [|discriminate]. cbn [bind].
      intros [= <- <-]. now repeat split.
Qed.

End distributor_budget.

(** [distributor_construction_edges] on a grammar whose estimated mean depth
    is 0, and on the sample grammar with a budget of 0. *)
Lemma distributor_construction_edges_witness :
  @RessourceDistributor.__init__ unit Sample.flat_grammar "UNIFORM" tt 4 0%nat
    = Raise ZeroDivisionError /\
  exists rd,
    RessourceDistributor.__init__ "UNIFORM" Sample.chain 0 0%nat = Ok (rd, 0%nat) /\
    RessourceDistributor.still_has_ressources rd = false.
Proof.
  split.
  - exact (proj1 (proj2 (@distributor_construction_edges unit Sample.flat_grammar
                           "UNIFORM" tt 4 0%nat)) eq_refl).
  - eexists. split; [reflexivity|].
    exact (proj2 (proj2 (proj2 (proj2
             (proj2 (proj2 (@distributor_construction_edges _ Sample.tree_grammar
                              "UNIFORM" Sample.chain 0 0%nat)) _ _ eq_refl))))).
Defined.

(** ** CounterNode: what backpropagation and solving change *)

Section counter_node_updates.
Context {G : Type} `{!GrammarNode.t G}.

Implicit Types (h : list (CounterNode.t G)) (n : CounterNode.t G).

Lemma absorb_keeps_path reward leaf i depth : forall h self,
  backpropagation_path depth (alter (CounterNode.absorb reward leaf) i h) self
  = backpropagation_path depth h self.
Proof.
  induction depth as [|depth IH]; intros h self; [reflexivity|].
  cbn [backpropagation_path]. rewrite list_lookup_alter.
  destruct (decide (i = self)) as [->|Hne].
  - destruct (h !! self) as [n|]; [|reflexivity]. cbn [fmap option_fmap option_map].
    destruct (absorb_links reward leaf n) as (Hp & _ & Hf & _). rewrite Hp, Hf.
    destruct (CounterNode.freeze n); [reflexivity|].
    destruct (CounterNode.parent n); now rewrite ?IH.
  - destruct (h !! self) as [n|]; [|reflexivity].
    destruct (CounterNode.freeze n); [reflexivity|].
    destruct (CounterNode.parent n); now rewrite ?IH.
Qed.

Lemma fold_alter_elsewhere (f : CounterNode.t G -> CounterNode.t G) (path : list ref) i :
  forall h, i ∉ path -> fold_left (fun heap j => alter f j heap) path h !! i = h !! i.
Proof.
  induction path as [|j path IH]; intros h Hout; [reflexivity|].
  cbn [fold_left]. apply not_elem_of_cons in Hout as [Hne Hout].
  rewrite IH by exact Hout. now apply list_lookup_alter_ne.
Qed.

Lemma absorb_keeps_path_ends reward leaf i depth : forall h self,
  path_ends depth (alter (CounterNode.absorb reward leaf) i h) self = path_ends depth h self.
Proof.
  induction depth as [|depth IH]; intros h self; [reflexivity|].
  cbn [path_ends]. rewrite list_lookup_alter.
  destruct (decide (i = self)) as [->|Hne].
  - destruct (h !! self) as [n|]; [|reflexivity]. cbn [fmap option_fmap option_map].
    destruct (absorb_links reward leaf n) as (Hp & _ & Hf & _). rewrite Hp, Hf.
    destruct (CounterNode.freeze n); [reflexivity|].
    destruct (CounterNode.parent n); now rewrite ?IH.
  - destruct (h !! self) as [n|]; [|reflexivity].
    destruct (CounterNode.freeze n); [reflexivity|].
    destruct (CounterNode.parent n); now rewrite ?IH.
Qed.

Lemma backpropagate_path_ends depth : forall h start reward leaf h',
  CounterNode.backpropagate depth h start reward leaf = Ok h' ->
  path_ends depth h start = true.
Proof.
  induction depth as [|depth IH]; intros h start reward leaf h'; [discriminate|].
  cbn [CounterNode.backpropagate path_ends]. unfold CounterNode.deref.
  destruct (h !! start) as [n|]; [|discriminate]. cbn [bind].
  destruct (CounterNode.freeze n); [reflexivity|].
  destruct (CounterNode.parent n) as [p|]; [|reflexivity].
  intros Hrun. apply IH in Hrun. now rewrite absorb_keeps_path_ends in Hrun.
Qed.

(** A path that has ended is the same with a deeper recursion. *)
Lemma path_ends_stable depth : forall h self extra,
  path_ends depth h self = true ->
  path_ends (depth + extra) h self = true /\
  backpropagation_path (depth + extra) h self = backpropagation_path depth h self.
Proof.
  induction depth as [|depth IH]; intros h self extra; [discriminate|].
  cbn [path_ends backpropagation_path Nat.add].
  destruct (h !! self) as [n|]; [|discriminate].
  destruct (CounterNode.freeze n); [now split|].
  destruct (CounterNode.parent n) as [p|]; [|now split].
  intros Hends. destruct (IH h p extra Hends) as [-> ->]. now split.
Qed.

Lemma path_elements_end depth : forall h self x,
  path_ends depth h self = true -> x ∈ backpropagation_path depth h self ->
  path_ends depth h x = true /\
  (length (backpropagation_path depth h x) <= length (backpropagation_path depth h self))%nat.
Proof.
  induction depth as [|depth IH]; intros h self x; [discriminate|].
  intros Hends Hx. pose proof Hends as Hends'. pose proof Hx as Hx'.
  cbn [path_ends backpropagation_path] in Hends, Hx.
  destruct (h !! self) as [n|] eqn:Hn; [|discriminate].
  destruct (CounterNode.freeze n) eqn:Hf; [now apply elem_of_nil in Hx|].
  apply elem_of_cons in Hx as [->|Hx]; [split; [exact Hends'|lia]|].
  destruct (CounterNode.parent n) as [p|] eqn:Hp; [|now apply elem_of_nil in Hx].
  destruct (IH h p x Hends Hx) as [Hex Hlen].
  destruct (path_ends_stable depth h x 1 Hex) as [Hex1 Hpath1].
  replace (depth + 1)%nat with (S depth) in Hex1, Hpath1 by lia.
  split; [exact Hex1|]. rewrite Hpath1.
  cbn [backpropagation_path]. rewrite Hn, Hf, Hp. cbn [length]. lia.
Qed.

Lemma path_NoDup depth : forall h self,
  path_ends depth h self = true -> NoDup (backpropagation_path depth h self).
Proof.
  induction depth as [|depth IH]; intros h self; [discriminate|].
  intros Hends. pose proof Hends as Hends'. cbn [path_ends backpropagation_path] in Hends |- *.
  destruct (h !! self) as [n|] eqn:Hn; [|discriminate].
  destruct (CounterNode.freeze n) eqn:Hf; [constructor|].
  destruct (CounterNode.parent n) as [p|] eqn:Hp;
    [|constructor; [apply not_elem_of_nil|constructor]].
  constructor; [|now apply IH].
  intros Hin. destruct (path_elements_end depth h p self Hends Hin) as [Hes Hlen].
  destruct (path_ends_stable depth h self 1 Hes) as [_ Hpath1].
  replace (depth + 1)%nat with (S depth) in Hpath1 by lia.
  cbn [backpropagation_path] in Hpath1. rewrite Hn, Hf, Hp in Hpath1.
  rewrite <- Hpath1 in Hlen. cbn [length] in Hlen. lia.
Qed.

(** X6: a backpropagation that returns has updated the nodes of its path,
    one after the other from the start upwards, each once with the reward
    and the leaf, and no other node: the path holds no node twice and no
    frozen node, and a node off the path is as it was. *)
Theorem backpropagate_updates_its_path depth : forall h start reward leaf h',
  CounterNode.backpropagate depth h start reward leaf = Ok h' ->
  let path := backpropagation_path depth h start in
  h' = fold_left (fun heap i => alter (CounterNode.absorb reward leaf) i heap) path h /\
  (forall i, i ∉ path -> h' !! i = h !! i) /\
  Forall (fun i => exists n, h !! i = Some n /\ CounterNode.freeze n = false) path /\
  NoDup path.
Proof.
  assert (forall h start reward leaf h',
            CounterNode.backpropagate depth h start reward leaf = Ok h' ->
            h' = fold_left (fun heap i => alter (CounterNode.absorb reward leaf) i heap)
                   (backpropagation_path depth h start) h /\
            Forall (fun i => exists n, h !! i = Some n /\ CounterNode.freeze n = false)
              (backpropagation_path depth h start)) as Hmain.
  { induction depth as [|depth IH]; intros h start reward leaf h'; [discriminate|].
    cbn [CounterNode.backpropagate backpropagation_path]. unfold CounterNode.deref.
    destruct (h !! start) as [n|] eqn:Hn; [|discriminate]. cbn [bind].
    destruct (CounterNode.freeze n) eqn:Hf; [intros [= <-]; split; [reflexivity|constructor]|].
    destruct (CounterNode.parent n) as [p|] eqn:Hp.
    - intros Hrun. destruct (IH _ _ _ _ _ Hrun) as [Hfold Hall].
      rewrite absorb_keeps_path in Hfold, Hall. cbn [fold_left]. split; [exact Hfold|].
      constructor; [now exists n|].
      eapply Forall_impl; [exact Hall|]. intros i (ni & Hi & Hfi). cbn beta.
      rewrite list_lookup_alter in Hi. destruct (decide (start = i)) as [->|Hne].
      + exists n. split; [exact Hn|exact Hf].
      + now exists ni.
    - intros [= <-]. cbn [fold_left]. split; [reflexivity|].
      constructor; [now exists n|constructor]. }
  intros h start reward leaf h' Hrun. destruct (Hmain _ _ _ _ _ Hrun) as [Hfold Hall].
  cbn zeta. split; [exact Hfold|]. split; [|split; [exact Hall|]].
  - intros i Hout. rewrite Hfold. now apply fold_alter_elsewhere.
  - eapply path_NoDup, backpropagate_path_ends; eauto.
Qed.

(** X7: [set_as_solved] marks the node solved and does nothing else to the
    heap than marking nodes solved: every node is as it was or differs by
    its solved flag, now set. The marking stops below a frozen parent. *)
Theorem set_as_solved_only_marks depth : forall h self h',
  CounterNode.set_as_solved depth h self = Ok h' ->
  (exists n', h' !! self = Some n' /\ CounterNode.solved n' = true) /\
  length h' = length h /\
  (forall i n, h !! i = Some n ->
     h' !! i = Some n \/ h' !! i = Some (CounterNode.set_solved true n)) /\
  (forall n p pn, h !! self = Some n -> CounterNode.parent n = Some p -> p <> self ->
     h !! p = Some pn -> CounterNode.freeze pn = true ->
     h' = alter (CounterNode.set_solved true) self h).
Proof.
  induction depth as [|depth IH]; intros h self h'; [discriminate|].
  cbn [CounterNode.set_as_solved]. unfold CounterNode.deref at 1.
  destruct (h !! self) as [node|] eqn:Hnode; [|discriminate]. cbn [bind].
  set (h1 := alter (CounterNode.set_solved true) self h).
  assert (h1 !! self = Some (CounterNode.set_solved true node)) as Hself1
    by (unfold h1; now rewrite list_lookup_alter_eq, Hnode).
  assert (forall i n, h !! i = Some n ->
            h1 !! i = Some n \/ h1 !! i = Some (CounterNode.set_solved true n)) as Hstep.
  { intros i n Hn. unfold h1. rewrite list_lookup_alter.
    destruct (decide (self = i)) as [->|Hne]; [right; now rewrite Hn|now left]. }
  assert (length h1 = length h) as Hlen1 by apply length_alter.
  intros Hrun.
  assert (h' = h1 \/
          exists p, CounterNode.parent node = Some p /\
            (exists pn, h1 !! p = Some pn /\ CounterNode.freeze pn = false) /\
            CounterNode.set_as_solved depth h1 p = Ok h') as Hcases.
  { destruct (CounterNode.parent node) as [p|]; [|left; now injection Hrun].
    unfold CounterNode.deref in Hrun.
    destruct (h1 !! p) as [pnode|] eqn:Hp; [|discriminate]. cbn [bind] in Hrun.
    destruct (CounterNode.freeze pnode) eqn:Hf; [left; now injection Hrun|].
    destruct (CounterNode.children h1 p) as [brothers|]; [|discriminate]. cbn [bind] in Hrun.
    destruct (CounterNode.all_solved h1 brothers) as [[|]|]; try discriminate;
      cbn [bind] in Hrun; [|left; now injection Hrun].
    right. exists p. split; [reflexivity|]. split; [now exists pnode|exact Hrun]. }
  destruct Hcases as [->|(p & Hp & (pn1 & Hpn1 & Hf1) & Hup)].
  - split; [exists (CounterNode.set_solved true node); now split|].
    split; [exact Hlen1|]. split; [exact Hstep|]. reflexivity.
  - destruct (IH _ _ _ Hup) as ((pn' & _ & _) & Hlen & Honly & _).
    split; [|split; [congruence|split]].
    + destruct (Honly self _ Hself1) as [Hs|Hs]; eexists; (split; [exact Hs|reflexivity]).
    + intros i n Hn. destruct (Hstep i n Hn) as [Hi|Hi];
        destruct (Honly i _ Hi) as [Hi'|Hi']; auto.
    + intros n p' pn Hn Hpar Hne Hpn Hfz. exfalso.
      assert (n = node) as -> by congruence. assert (p' = p) as -> by congruence.
      unfold h1 in Hpn1. rewrite list_lookup_alter_ne in Hpn1 by congruence. congruence.
Qed.

End counter_node_updates.

(** [backpropagate_updates_its_path] on the sample family, from the visited
    child: the child and its parent are updated, the other child is not. *)
Lemma backpropagate_updates_its_path_witness :
  exists h',
    CounterNode.backpropagate 5 Sample.family 1 (1 # 2) Sample.leaf_x = Ok h' /\
    h' !! 2%nat = Sample.family !! 2%nat.
Proof.
  eexists. split; [reflexivity|].
  refine (proj1 (proj2 (backpropagate_updates_its_path 5 Sample.family 1%nat (1 # 2)
                          Sample.leaf_x _ eq_refl)) 2%nat _).
  cbn. intros Hin. apply elem_of_cons in Hin as [Hin|Hin]; [discriminate|].
  apply elem_of_cons in Hin as [Hin|Hin]; [discriminate|]. now apply elem_of_nil in Hin.
Defined.

(** [set_as_solved_only_marks] below the frozen root of the sample pair. *)
Lemma set_as_solved_only_marks_witness :
  CounterNode.set_as_solved 3 Sample.frozen_pair 1
  = Ok (alter (CounterNode.set_solved true) 1%nat Sample.frozen_pair).
Proof.
  destruct (CounterNode.set_as_solved 3 Sample.frozen_pair 1) as [h'|e] eqn:Hrun;
    [|vm_compute in Hrun; discriminate].
  f_equal.
  refine (proj2 (proj2 (proj2 (set_as_solved_only_marks 3 Sample.frozen_pair 1%nat h' Hrun)))
            _ 0%nat _ eq_refl eq_refl _ eq_refl eq_refl).
  discriminate.
Defined.

(** ** MCTS: selection, simulation and the choice of a maximum *)

Section selection_choice.
Context {G : Type} `{!GrammarNode.t G} `{!math.t}.

Implicit Types (h : list (CounterNode.t G)) (n : CounterNode.t G).

Lemma first_unvisited_count h kids child :
  MCTS.first_unvisited h kids = Ok (Some child) ->
  exists cn, h !! child = Some cn /\ CounterNode.count cn = 0.
Proof.
  induction kids as [|k kids IH]; cbn [MCTS.first_unvisited]; [discriminate|].
  destruct (CounterNode.deref h k) as [kn|] eqn:Hk; [|discriminate]. cbn [bind].
  apply deref_Ok in Hk. destruct (CounterNode.count kn =? 0) eqn:Hz; [|exact IH].
  intros [= <-]. exists kn. split; [exact Hk|now apply Z.eqb_eq].
Qed.

Lemma unsolved_children_unsolved h kids : forall unsolved x,
  MCTS.unsolved_children h kids = Ok unsolved -> x ∈ unsolved ->
  exists xn, h !! x = Some xn /\ CounterNode.solved xn = false.
Proof.
  induction kids as [|k kids IH]; intros unsolved x; cbn [MCTS.unsolved_children].
  - intros [= <-] Hx. now apply elem_of_nil in Hx.
  - destruct (CounterNode.deref h k) as [kn|] eqn:Hk; [|discriminate]. cbn [bind].
    apply deref_Ok in Hk.
    destruct (MCTS.unsolved_children h kids) as [others|]; [|discriminate]. cbn [bind].
    intros [= <-] Hx. destruct (CounterNode.solved kn) eqn:Hs; [eapply IH; eauto|].
    apply elem_of_cons in Hx as [->|Hx]; [now exists kn|eapply IH; eauto].
Qed.

Lemma all_visited_and_solved h kids :
  Forall (fun k => exists kn, h !! k = Some kn /\ CounterNode.count kn <> 0 /\
                     CounterNode.solved kn = true) kids ->
  MCTS.first_unvisited h kids = Ok None /\ MCTS.unsolved_children h kids = Ok [].
Proof.
  induction 1 as [|k kids (kn & Hk & Hc & Hs) _ [IH1 IH2]];
    cbn [MCTS.first_unvisited MCTS.unsolved_children]; [now split|].
  rewrite (deref_Some _ _ _ Hk). cbn [bind]. apply Z.eqb_neq in Hc.
  rewrite Hc, IH1, IH2, Hs. now split.
Qed.

(** X9: the node [selection_policy] returns is one of the children, either
    never visited or not solved. When every child has been visited and is
    solved, no candidate is left and the call raises [ValueError]. *)
Theorem selection_policy_choice h counter_node :
  (forall next, MCTS.selection_policy h counter_node = Ok next ->
     exists n kids nn,
       h !! counter_node = Some n /\ CounterNode._children n = Some kids /\ next ∈ kids /\
       h !! next = Some nn /\
       (CounterNode.count nn = 0 \/ CounterNode.solved nn = false)) /\
  (forall kids, CounterNode.children h counter_node = Ok kids ->
     Forall (fun k => exists kn, h !! k = Some kn /\ CounterNode.count kn <> 0 /\
                        CounterNode.solved kn = true) kids ->
     MCTS.selection_policy h counter_node
       = Raise (ValueError "max() arg is an empty sequence")).
Proof.
  split.
  - intros next Hnext.
    destruct (selection_policy_elem _ _ _ Hnext) as (n & kids & Hn & Hkids & Hin).
    exists n, kids. revert Hnext. unfold MCTS.selection_policy, CounterNode.children.
    rewrite (deref_Some _ _ _ Hn). cbn [bind]. rewrite Hkids.
    destruct kids as [|c cs]; [discriminate|]. cbn [bind].
    destruct (MCTS.first_unvisited h (c :: cs)) as [[child|]|] eqn:Hfirst; try discriminate;
      cbn [bind].
    + intros [= ->]. destruct (first_unvisited_count _ _ _ Hfirst) as (cn & Hcn & Hz).
      exists cn. repeat split; try assumption. now left.
    + destruct (MCTS.unsolved_children h (c :: cs)) as [unsolved|] eqn:Hu; [|discriminate].
      cbn [bind]. intros Hmax. apply py_max_elem in Hmax.
      destruct (unsolved_children_unsolved _ _ _ _ Hu Hmax) as (xn & Hxn & Hs).
      exists xn. repeat split; try assumption. now right.
  - intros kids Hkids Hall. unfold MCTS.selection_policy. rewrite Hkids. cbn [bind].
    destruct (all_visited_and_solved h kids Hall) as [-> ->]. reflexivity.
Qed.

Lemma visit_only_counts h x h' :
  MCTS.visit h x = Ok h' ->
  length h' = length h /\
  (forall i n, h !! i = Some n ->
     exists c, CounterNode.count n <= c /\ h' !! i = Some (CounterNode.set_count c n)) /\
  (forall xn, h !! x = Some xn ->
     h' !! x = Some (CounterNode.set_count (CounterNode.count xn + 1) xn)).
Proof.
  intros Hvisit. destruct (visit_Ok _ _ _ Hvisit) as (xn & Hxn & ->).
  split; [apply length_alter|]. split.
  - intros i n Hn. rewrite list_lookup_alter. destruct (decide (x = i)) as [->|Hne].
    + exists (CounterNode.count n + 1). split; [lia|]. now rewrite Hn.
    + exists (CounterNode.count n). split; [lia|]. rewrite Hn. now destruct n.
  - intros xn' Hxn'. now rewrite list_lookup_alter_eq, Hxn'.
Qed.

Lemma selection_loop_only_counts fuel : forall h cur frontier h',
  MCTS.selection_loop fuel h cur = Ok (frontier, h') ->
  (exists fn, h' !! frontier = Some fn /\ CounterNode._is_terminal fn = true) /\
  length h' = length h /\
  (forall i n, h !! i = Some n ->
     exists c, CounterNode.count n <= c /\ h' !! i = Some (CounterNode.set_count c n)).
Proof.
  induction fuel as [|fuel IH]; intros h cur frontier h'; [discriminate|].
  cbn [MCTS.selection_loop]. unfold CounterNode.is_terminal.
  destruct (CounterNode.deref h cur) as [cn|] eqn:Hcur; [|discriminate]. cbn [bind].
  apply deref_Ok in Hcur. destruct (CounterNode._is_terminal cn) eqn:Hterm.
  - intros [= <- <-]. split; [now exists cn|]. split; [reflexivity|].
    intros i n Hn. exists (CounterNode.count n). split; [lia|]. rewrite Hn. now destruct n.
  - destruct (MCTS.selection_policy h cur) as [next|]; [|discriminate]. cbn [bind].
    destruct (MCTS.visit h next) as [h1|] eqn:Hvisit; [|discriminate]. cbn [bind].
    intros Hloop. destruct (visit_only_counts _ _ _ Hvisit) as (Hlen1 & Hall1 & _).
    destruct (IH _ _ _ _ Hloop) as (Hfront & Hlen & Hall).
    split; [exact Hfront|]. split; [congruence|].
    intros i n Hn. destruct (Hall1 i n Hn) as (c1 & Hc1 & Hn1).
    destruct (Hall i _ Hn1) as (c & Hc & Hn'). exists c.
    split; [cbn in Hc; lia|]. rewrite Hn'. now destruct n.
Qed.

(** X10: the selection phase ends at a node that has not been expanded, and
    it changes nothing in the heap but visit counts, which it only raises;
    the root it starts from gains a visit. *)
Theorem selection_phase_reaches_the_frontier loop_fuel h root frontier h' :
  MCTS.selection_phase loop_fuel h root = Ok (frontier, h') ->
  (exists fn, h' !! frontier = Some fn /\ CounterNode._is_terminal fn = true) /\
  length h' = length h /\
  (forall i n, h !! i = Some n ->
     exists c, CounterNode.count n <= c /\ h' !! i = Some (CounterNode.set_count c n)) /\
  (exists rn rn', h !! root = Some rn /\ h' !! root = Some rn' /\
     CounterNode.count rn + 1 <= CounterNode.count rn').
Proof.
  unfold MCTS.selection_phase.
  destruct (MCTS.visit h root) as [h1|] eqn:Hvisit; [|discriminate]. cbn [bind].
  intros Hloop. destruct (visit_Ok _ _ _ Hvisit) as (rn & Hrn & _).
  destruct (visit_only_counts _ _ _ Hvisit) as (Hlen1 & Hall1 & Hroot1).
  destruct (selection_loop_only_counts _ _ _ _ _ Hloop) as (Hfront & Hlen & Hall).
  split; [exact Hfront|]. split; [congruence|]. split.
  - intros i n Hn. destruct (Hall1 i n Hn) as (c1 & Hc1 & Hn1).
    destruct (Hall i _ Hn1) as (c & Hc & Hn'). exists c.
    split; [cbn in Hc; lia|]. rewrite Hn'. now destruct n.
  - destruct (Hall root _ (Hroot1 rn Hrn)) as (c & Hc & Hn'). cbn in Hc.
    exists rn. eexists. split; [exact Hrn|]. split; [exact Hn'|]. cbn. lia.
Qed.

(** X11: the simulation hands back a terminal grammar node; from a node that
    is terminal already it hands back that node without a random draw. *)
Theorem simulation_ends_on_a_terminal_node fuel : forall (tmp_node : G) rng,
  (forall leaf rng', MCTS.simulation fuel tmp_node rng = Ok (leaf, rng') ->
     GrammarNode.is_terminal leaf = true) /\
  (GrammarNode.is_terminal tmp_node = true ->
   MCTS.simulation (S fuel) tmp_node rng = Ok (tmp_node, rng)).
Proof.
  induction fuel as [|fuel IH]; intros tmp_node rng.
  - split; [discriminate|]. cbn. now intros ->.
  - split.
    + intros leaf rng'. cbn [MCTS.simulation].
      destruct (GrammarNode.is_terminal tmp_node) eqn:Hterm.
      * now intros [= <- <-].
      * destruct (GrammarNode.random_child tmp_node rng) as [next rng1].
        apply (proj1 (IH next rng1)).
    + intros Hterm. cbn [MCTS.simulation]. now rewrite Hterm.
Qed.

End selection_choice.

(** [selection_policy_choice] on the sample family, where the second child
    has never been visited, and on a node whose only child is visited and
    solved. *)
Lemma selection_policy_choice_witness :
  (exists nn, Sample.family !! 2%nat = Some nn /\
     (CounterNode.count nn = 0 \/ CounterNode.solved nn = false)) /\
  MCTS.selection_policy Sample.exhausted 0 = Raise (ValueError "max() arg is an empty sequence").
Proof.
  split.
  - destruct (proj1 (@selection_policy_choice _ Sample.coarse_math Sample.family 0%nat)
                2%nat eq_refl) as (n & kids & nn & _ & _ & _ & Hnn & Hor).
    now exists nn.
  - refine (proj2 (@selection_policy_choice _ Sample.coarse_math Sample.exhausted 0%nat)
              [1%nat] eq_refl _).
    constructor; [|constructor]. eexists. split; [reflexivity|]. split; [discriminate|reflexivity].
Defined.

(** [selection_phase_reaches_the_frontier] on the sample family: the phase
    ends at the child never visited. *)
Lemma selection_phase_reaches_the_frontier_witness :
  exists h' fn,
    MCTS.selection_phase 5 Sample.family 0 = Ok (2%nat, h') /\
    h' !! 2%nat = Some fn /\ CounterNode._is_terminal fn = true /\ length h' = 3%nat.
Proof.
  destruct (MCTS.selection_phase 5 Sample.family 0) as [[frontier h']|e] eqn:Hrun;
    [|vm_compute in Hrun; discriminate].
  assert (frontier = 2%nat) as -> by (vm_compute in Hrun; now injection Hrun).
  destruct (@selection_phase_reaches_the_frontier _ Sample.coarse_math 5 Sample.family
              0%nat 2%nat h' Hrun) as ((fn & Hfn & Hterm) & Hlen & _).
  exists h', fn. split; [reflexivity|]. split; [exact Hfn|]. split; [exact Hterm|exact Hlen].
Defined.

(** [simulation_ends_on_a_terminal_node] from the root of the sample
    grammar, and from one of its leaves. *)
Lemma simulation_ends_on_a_terminal_node_witness :
  (exists leaf rng',
     MCTS.simulation 5 Sample.chain 0 = Ok (leaf, rng') /\
     GrammarNode.is_terminal leaf = true) /\
  MCTS.simulation 1 Sample.leaf_x 7 = Ok (Sample.leaf_x, 7%nat).
Proof.
  split.
  - destruct (MCTS.simulation 5 Sample.chain 0) as [[leaf rng']|e] eqn:Hrun;
      [|vm_compute in Hrun; discriminate].
    exists leaf, rng'. split; [reflexivity|].
    exact (proj1 (@simulation_ends_on_a_terminal_node _ Sample.tree_grammar 5 Sample.chain
                    0%nat) leaf rng' Hrun).
  - exact (proj2 (@simulation_ends_on_a_terminal_node _ Sample.tree_grammar 0 Sample.leaf_x
                    7%nat) eq_refl).
Defined.

(** ** MCTS: the move of the logical root *)

Section root_advancement.
Context {G LM : Type} `{!GrammarNode.t G} `{!SentenceScore.t LM} `{!math.t}.

Implicit Types (h : list (CounterNode.t G)) (n : CounterNode.t G).

Lemma Qgtb_lt (a b : Q) : Qgtb a b = true -> (b < a)%Q.
Proof.
  unfold Qgtb. intros Hab. apply Qnot_le_lt. intros Hle.
  apply Qle_bool_iff in Hle. now rewrite Hle in Hab.
Qed.

Lemma max_loop_first_greatest {A : Type} (key : A -> result Q) (l : list A) :
  forall best best_key x,
  MCTS.max_loop key best best_key l = Ok x ->
  (x = best /\ Forall (fun y => exists ky, key y = Ok ky /\ (ky <= best_key)%Q) l) \/
  (exists before after kx,
     l = before ++ x :: after /\ key x = Ok kx /\ (best_key < kx)%Q /\
     Forall (fun y => exists ky, key y = Ok ky /\ (ky < kx)%Q) before /\
     Forall (fun y => exists ky, key y = Ok ky /\ (ky <= kx)%Q) after).
Proof.
  induction l as [|y l IH]; intros best best_key x; cbn [MCTS.max_loop].
  - intros [= ->]. left. split; [reflexivity|constructor].
  - destruct (key y) as [ky|] eqn:Hy; [|discriminate]. cbn [bind].
    destruct (Qgtb ky best_key) eqn:Hgt; intros Hrun; apply IH in Hrun.
    + apply Qgtb_lt in Hgt. right.
      destruct Hrun as [[-> Hall]|(before & after & kx & -> & Hx & Hlt & Hb & Ha)].
      * exists [], l, ky. repeat split; try assumption. constructor.
      * exists (y :: before), after, kx. repeat split; try assumption.
        -- eapply Qlt_trans; eauto.
        -- constructor; [now exists ky|exact Hb].
    + apply Qgtb_false in Hgt.
      destruct Hrun as [[-> Hall]|(before & after & kx & -> & Hx & Hlt & Hb & Ha)].
      * left. split; [reflexivity|]. constructor; [now exists ky|exact Hall].
      * right. exists (y :: before), after, kx. repeat split; try assumption.
        constructor; [|exact Hb]. exists ky. split; [exact Hy|].
        eapply Qle_lt_trans; eauto.
Qed.

(** Python's [max] with a key: the item returned has the greatest key, and
    is the first to have it. *)
Lemma py_max_first_greatest {A : Type} (key : A -> result Q) (l : list A) (x : A) :
  MCTS.py_max key l = Ok x ->
  exists before after kx,
    l = before ++ x :: after /\ key x = Ok kx /\
    Forall (fun y => exists ky, key y = Ok ky /\ (ky < kx)%Q) before /\
    Forall (fun y => exists ky, key y = Ok ky /\ (ky <= kx)%Q) after.
Proof.
  destruct l as [|y l]; cbn [MCTS.py_max]; [discriminate|].
  destruct (key y) as [ky|] eqn:Hy; [|discriminate]. cbn [bind]. intros Hrun.
  apply max_loop_first_greatest in Hrun
    as [[-> Hall]|(before & after & kx & -> & Hx & Hlt & Hb & Ha)].
  - exists [], l, ky. repeat split; try assumption. constructor.
  - exists (y :: before), after, kx. repeat split; try assumption.
    constructor; [now exists ky|exact Hb].
Qed.

Lemma top_reward_key h child k :
  (n <- CounterNode.deref h child ;; Ok (CounterNode.top_reward n)) = Ok k ->
  exists cn, h !! child = Some cn /\ CounterNode.top_reward cn = k.
Proof.
  destruct (CounterNode.deref h child) as [cn|] eqn:Hc; [|discriminate]. cbn [bind].
  intros [= <-]. exists cn. split; [now apply deref_Ok|reflexivity].
Qed.

(** X12: the move of the logical root. The leaves still pending are scored
    and their results backpropagated, so the buffer and the results are
    empty afterwards; the former root is frozen; the new root is the child
    of the former one with the greatest top reward, the first of them in the
    order of the children; the depth grows by one and the distributor
    starts the new depth with nothing consumed there, its total unchanged. *)
Theorem advance_root_moves_to_the_best_child recursion_limit (self : MCTS.t G LM)
    root depth self' root' depth' :
  MCTS.advance_root recursion_limit self root depth = Ok (self', root', depth') ->
  depth' = depth + 1 /\
  EvalBuffer.buffer (MCTS.eval_buffer self') = [] /\
  EvalBuffer.results (MCTS.eval_buffer self') = [] /\
  (exists rn before after best,
     MCTS.nodes self' !! root = Some rn /\ CounterNode.freeze rn = true /\
     CounterNode._children rn = Some (before ++ root' :: after) /\
     MCTS.nodes self' !! root' = Some best /\
     Forall (fun k => exists kn, MCTS.nodes self' !! k = Some kn /\
                        (CounterNode.top_reward kn < CounterNode.top_reward best)%Q) before /\
     Forall (fun k => exists kn, MCTS.nodes self' !! k = Some kn /\
                        (CounterNode.top_reward kn <= CounterNode.top_reward best)%Q) after) /\
  (exists rd rd',
     MCTS.ressource_distributor self = Some rd /\
     MCTS.ressource_distributor self' = Some rd' /\
     RessourceDistributor.current_depth rd' = depth + 1 /\
     RessourceDistributor.ressources_already_consumed_at_current_depth rd' = 0 /\
     RessourceDistributor.ressources_already_consumed rd'
       = RessourceDistributor.ressources_already_consumed rd /\
     RessourceDistributor.ressources_to_consume rd'
       = RessourceDistributor.ressources_to_consume rd).
Proof.
  unfold MCTS.advance_root, EvalBuffer.pop_results.
  destruct (MCTS.backpropagate_all _ _ _) as [h1|]; [|discriminate]. cbn [bind].
  destruct (CounterNode.deref h1 root) as [rn|] eqn:Hrn; [|discriminate].
  apply deref_Ok in Hrn. cbn [bind].
  set (h2 := alter (CounterNode.set_freeze true) root h1).
  destruct (CounterNode.children h2 root) as [kids|] eqn:Hkids; [|discriminate].
  cbn [bind]. destruct (MCTS.py_max _ kids) as [best|] eqn:Hbest; [|discriminate].
  cbn [bind]. unfold MCTS.distributor.
  destruct (MCTS.ressource_distributor self) as [rd|] eqn:Hrd; [|discriminate].
  cbn [bind]. intros [= <- <- <-].
  cbn [MCTS.nodes MCTS.eval_buffer MCTS.ressource_distributor
       MCTS.set_ressource_distributor MCTS.set_nodes MCTS.set_eval_buffer
       EvalBuffer.buffer EvalBuffer.results].
  split; [reflexivity|]. split; [apply force_eval_buffer_nil|]. split; [reflexivity|]. split.
  - destruct (children_Ok _ _ _ Hkids) as (rn2 & Hrn2 & Hk2).
    destruct (py_max_first_greatest _ _ _ Hbest) as (before & after & kx & -> & Hx & Hb & Ha).
    destruct (top_reward_key _ _ _ Hx) as (bn & Hbn & <-).
    exists rn2, before, after, bn. split; [exact Hrn2|]. split.
    { unfold h2 in Hrn2. rewrite list_lookup_alter_eq, Hrn in Hrn2. now injection Hrn2 as <-. }
    split; [exact Hk2|]. split; [exact Hbn|]. split.
    + eapply Forall_impl; [exact Hb|]. intros k (ky & Hk & Hlt).
      destruct (top_reward_key _ _ _ Hk) as (kn & Hkn & <-). now exists kn.
    + eapply Forall_impl; [exact Ha|]. intros k (ky & Hk & Hle).
      destruct (top_reward_key _ _ _ Hk) as (kn & Hkn & <-). now exists kn.
  - exists rd. eexists. split; [reflexivity|]. split; [reflexivity|]. now repeat split.
Qed.

End root_advancement.

(** [advance_root_moves_to_the_best_child] in the middle of a search on the
    sample family: the visited child, of top reward 2, becomes the root and
    the former root is frozen. *)
Lemma advance_root_moves_to_the_best_child_witness :
  exists self' rn,
    MCTS.advance_root 5 Sample.mid_search 0 1 = Ok (self', 1%nat, 2) /\
    MCTS.nodes self' !! 0%nat = Some rn /\ CounterNode.freeze rn = true.
Proof.
  destruct (MCTS.advance_root 5 Sample.mid_search 0 1) as [[[self' root'] depth']|e] eqn:Hrun;
    [|vm_compute in Hrun; discriminate].
  assert (root' = 1%nat /\ depth' = 2) as [-> ->]
    by (vm_compute in Hrun; injection Hrun as _ <- <-; now split).
  destruct (advance_root_moves_to_the_best_child 5 Sample.mid_search 0%nat 1 self' 1%nat 2
              Hrun) as (_ & _ & _ & (rn & _ & _ & _ & Hrn & Hf & _) & _).
  exists self', rn. split; [reflexivity|]. split; [exact Hrn|exact Hf].
Defined.

(** ** MCTS: the budget of a search *)

Section search_budget.
Context {G LM : Type} `{!GrammarNode.t G} `{!SentenceScore.t LM} `{!math.t}.

Implicit Types (self : MCTS.t G LM) (rd : RessourceDistributor.t).

Lemma advance_root_distributor recursion_limit self root depth self' root' depth' :
  MCTS.advance_root recursion_limit self root depth = Ok (self', root', depth') ->
  exists rd,
    MCTS.ressource_distributor self = Some rd /\
    MCTS.ressource_distributor self'
      = Some (RessourceDistributor.set_new_position rd (depth + 1)).
Proof.
  unfold MCTS.advance_root, EvalBuffer.pop_results.
  destruct (MCTS.backpropagate_all _ _ _) as [h1|]; [|discriminate]. cbn [bind].
  destruct (CounterNode.deref h1 root) as [rn|]; [|discriminate]. cbn [bind].
  destruct (CounterNode.children _ root) as [kids|]; [|discriminate]. cbn [bind].
  destruct (MCTS.py_max _ kids) as [best|]; [|discriminate]. cbn [bind].
  unfold MCTS.distributor.
  destruct (MCTS.ressource_distributor self) as [rd|]; [|discriminate]. cbn [bind].
  intros [= <- <- <-]. now exists rd.
Qed.

(** One pass through the body of the loop consumes one unit. *)
Lemma iteration_consumes_one_unit recursion_limit loop_fuel self root depth
    self' root' depth' :
  MCTS.iteration recursion_limit loop_fuel self root depth = Ok (self', root', depth') ->
  exists rd rd',
    MCTS.ressource_distributor self = Some rd /\
    MCTS.ressource_distributor self' = Some rd' /\
    RessourceDistributor.ressources_to_consume rd'
      = RessourceDistributor.ressources_to_consume rd /\
    RessourceDistributor.ressources_already_consumed rd'
      = RessourceDistributor.ressources_already_consumed rd + 1.
Proof.
  unfold MCTS.iteration, EvalBuffer.pop_results. unfold MCTS.distributor at 1.
  destruct (MCTS.ressource_distributor self) as [rd|] eqn:Hrd; [|discriminate].
  cbn [bind]. cbn [MCTS.nodes MCTS.set_ressource_distributor MCTS.eval_buffer MCTS.rng].
  destruct (MCTS.selection_phase _ _ root) as [[frontier h1]|]; [|discriminate].
  cbn [bind]. destruct (CounterNode.deref h1 frontier) as [fnode|]; [|discriminate].
  cbn [bind].
  match goal with |- context [bind (if ?c then ?a else ?b) _] =>
    destruct (if c then a else b) as [h2|]; [|discriminate] end.
  cbn [bind]. destruct (MCTS.simulation _ _ _) as [[random_leaf rng']|]; [|discriminate].
  cbn [bind]. destruct (MCTS.backpropagate_all _ h2 _) as [h3|]; [|discriminate].
  cbn [bind].
  match goal with |- context [bind (MCTS.distributor ?s) _] =>
    destruct (MCTS.distributor s) as [rd1|] eqn:Hrd1; [|discriminate] end.
  unfold MCTS.distributor in Hrd1.
  cbn [MCTS.ressource_distributor MCTS.set_rng MCTS.set_nodes MCTS.set_eval_buffer] in Hrd1.
  injection Hrd1 as <-. cbn [bind].
  match goal with |- context [bind ?m _] => destruct m as [[|]|]; [| |discriminate] end;
    cbn [bind].
  - intros Hadv. apply advance_root_distributor in Hadv as (rd1 & Hrd1 & Hrd').
    cbn [MCTS.ressource_distributor MCTS.set_rng MCTS.set_nodes MCTS.set_eval_buffer] in Hrd1.
    injection Hrd1 as <-.
    exists rd. eexists. split; [reflexivity|]. split; [exact Hrd'|]. now split.
  - intros [= <- <- <-]. exists rd. eexists. split; [reflexivity|].
    split; [reflexivity|]. now split.
Qed.

Lemma keep_searching_has_ressources self root :
  MCTS.keep_searching self root = Ok true ->
  exists rd, MCTS.ressource_distributor self = Some rd /\
    RessourceDistributor.ressources_already_consumed rd
      < RessourceDistributor.ressources_to_consume rd.
Proof.
  unfold MCTS.keep_searching, MCTS.distributor.
  destruct (CounterNode.deref _ root) as [rn|]; [|discriminate]. cbn [bind].
  destruct (GrammarNode.is_terminal _); [discriminate|].
  destruct (CounterNode.solved rn); [discriminate|].
  destruct (MCTS.ressource_distributor self) as [rd|]; [|discriminate]. cbn [bind].
  intros [= Hstill]. exists rd. split; [reflexivity|]. now apply Z.ltb_lt.
Qed.

Lemma observed_within_budget recursion_limit loop_fuel
    (start state : MCTS.t G LM * ref * Z) rd0 :
  observed recursion_limit loop_fuel start state ->
  MCTS.ressource_distributor (fst (fst start)) = Some rd0 ->
  exists rd,
    MCTS.ressource_distributor (fst (fst state)) = Some rd /\
    RessourceDistributor.ressources_to_consume rd
      = RessourceDistributor.ressources_to_consume rd0 /\
    RessourceDistributor.ressources_already_consumed rd0
      <= RessourceDistributor.ressources_already_consumed rd /\
    RessourceDistributor.ressources_already_consumed rd
      <= Z.max (RessourceDistributor.ressources_already_consumed rd0)
               (RessourceDistributor.ressources_to_consume rd0).
Proof.
  intros Hobs Hrd0.
  induction Hobs as [|self root depth [[self' root'] depth'] _ IH Hkeep Hiter].
  - exists rd0. split; [exact Hrd0|]. split; [reflexivity|]. lia.
  - destruct IH as (rd & Hrd & Htotal & Hlow & Hhigh). cbn [fst snd] in *.
    destruct (keep_searching_has_ressources _ _ Hkeep) as (rd1 & Hrd1 & Hleft).
    destruct (iteration_consumes_one_unit _ _ _ _ _ _ _ _ Hiter)
      as (rd2 & rd' & Hrd2 & Hrd' & Htotal' & Hone).
    assert (rd1 = rd) as -> by congruence. assert (rd2 = rd) as -> by congruence.
    exists rd'. split; [exact Hrd'|]. split; [congruence|]. lia.
Qed.

(** X13: a search stays within its budget. At every observation point of the
    loop of [single_search], and when it returns, the budget of the
    distributor is the one it started with and the units consumed are at
    most the greater of that budget and of what was consumed at the start;
    each pass through the body consumes one unit. *)
Theorem walks_stay_within_budget recursion_limit loop_fuel self (root : G) rd0 :
  MCTS.ressource_distributor self = Some rd0 ->
  let start := (MCTS.set_nodes (MCTS.nodes self ++ [CounterNode.__init__ root None]) self,
                length (MCTS.nodes self), 1) in
  let within rd :=
    RessourceDistributor.ressources_to_consume rd
      = RessourceDistributor.ressources_to_consume rd0 /\
    RessourceDistributor.ressources_already_consumed rd0
      <= RessourceDistributor.ressources_already_consumed rd /\
    RessourceDistributor.ressources_already_consumed rd
      <= Z.max (RessourceDistributor.ressources_already_consumed rd0)
               (RessourceDistributor.ressources_to_consume rd0) in
  (forall now logical_root depth,
     observed recursion_limit loop_fuel start (now, logical_root, depth) ->
     exists rd, MCTS.ressource_distributor now = Some rd /\ within rd /\
       forall after root' depth',
         MCTS.iteration recursion_limit loop_fuel now logical_root depth
           = Ok (after, root', depth') ->
         exists rd', MCTS.ressource_distributor after = Some rd' /\
           RessourceDistributor.ressources_already_consumed rd'
             = RessourceDistributor.ressources_already_consumed rd + 1) /\
  (forall r final,
     MCTS.single_search recursion_limit loop_fuel self root = Ok (r, final) ->
     exists rd, MCTS.ressource_distributor final = Some rd /\ within rd).
Proof.
  intros Hrd0 start within. split.
  - intros now logical_root depth Hobs.
    destruct (observed_within_budget _ _ _ _ rd0 Hobs Hrd0) as (rd & Hrd & Hin).
    cbn [fst] in Hrd. exists rd. split; [exact Hrd|]. split; [exact Hin|].
    intros after root' depth' Hiter.
    destruct (iteration_consumes_one_unit _ _ _ _ _ _ _ _ Hiter)
      as (rd1 & rd' & Hrd1 & Hrd' & _ & Hone).
    assert (rd1 = rd) as -> by congruence. now exists rd'.
  - intros r final Hrun.
    destruct (single_search_final_flush _ _ _ _ _ _ Hrun) as (at_exit & Hloop & _ & _ & _).
    destruct (search_loop_observed recursion_limit loop_fuel start _ _ _ _ _
                (observed_start _ _ _) Hloop) as (root' & depth' & Hobs).
    destruct (observed_within_budget _ _ _ _ rd0 Hobs Hrd0) as (rd & Hrd & Hin).
    cbn [fst] in Hrd. exists rd. split; [|exact Hin].
    revert Hrun. unfold MCTS.single_search, CounterNode.new. fold start in Hloop.
    unfold start in Hloop. rewrite Hloop. cbn [bind]. intros [= _ <-]. exact Hrd.
Qed.

End search_budget.

(** [walks_stay_within_budget] on the search of the sample grammar in 4
    walks: it returns with at most 4 units consumed. *)
Lemma walks_stay_within_budget_witness :
  exists final rd,
    MCTS.single_search 100 100 Sample.uniform_engine Sample.chain = Ok (0%nat, final) /\
    MCTS.ressource_distributor final = Some rd /\
    RessourceDistributor.ressources_already_consumed rd <= 4.
Proof.
  destruct (MCTS.single_search 100 100 Sample.uniform_engine Sample.chain)
    as [[r final]|e] eqn:Hrun; [|vm_compute in Hrun; discriminate].
  assert (r = 0%nat) as -> by (vm_compute in Hrun; now injection Hrun).
  destruct (proj2 (walks_stay_within_budget 100 100 Sample.uniform_engine Sample.chain _
                     eq_refl) 0%nat final Hrun) as (rd & Hrd & _ & _ & Hmax).
  exists final, rd. split; [reflexivity|]. split; [exact Hrd|exact Hmax].
Defined.

Section search_edges.
Context {G LM : Type} `{!GrammarNode.t G} `{!SentenceScore.t LM} `{!math.t}.

Implicit Types (self : MCTS.t G LM) (rd : RessourceDistributor.t).



(** X15: a search that cannot walk. When the grammar root is terminal, or
    when the distributor has no unit left, [single_search] creates the
    counter root and returns it after the final flush, without a pass
    through the loop: no unit is consumed and no node is visited. *)
Theorem single_search_without_a_walk recursion_limit loop_fuel self (root : G) :
  let final :=
    MCTS.set_eval_buffer (EvalBuffer.force_eval (MCTS.eval_buffer self))
      (MCTS.set_nodes (MCTS.nodes self ++ [CounterNode.__init__ root None]) self) in
  (GrammarNode.is_terminal root = true ->
   MCTS.single_search recursion_limit (S loop_fuel) self root
     = Ok (length (MCTS.nodes self), final)) /\
  (forall rd, MCTS.ressource_distributor self = Some rd ->
     RessourceDistributor.still_has_ressources rd = false ->
     MCTS.single_search recursion_limit (S loop_fuel) self root
       = Ok (length (MCTS.nodes self), final)).
Proof.
  assert ((MCTS.nodes self ++ [CounterNode.__init__ root None]) !! length (MCTS.nodes self)
          = Some (CounterNode.__init__ root None)) as Hroot.
  { rewrite lookup_app_r by lia. now rewrite Nat.sub_diag. }
  cbn zeta. split.
  - intros Hterm. unfold MCTS.single_search, CounterNode.new.
    cbn [MCTS.search_loop]. unfold MCTS.keep_searching. cbn [MCTS.nodes MCTS.set_nodes].
    rewrite (deref_Some _ _ _ Hroot). cbn [bind CounterNode.reference_node CounterNode.__init__].
    now rewrite Hterm.
  - intros rd Hrd Hstill. unfold MCTS.single_search, CounterNode.new.
    cbn [MCTS.search_loop]. unfold MCTS.keep_searching, MCTS.distributor.
    cbn [MCTS.nodes MCTS.set_nodes MCTS.ressource_distributor].
    rewrite (deref_Some _ _ _ Hroot).
    cbn [bind CounterNode.reference_node CounterNode.solved CounterNode.__init__].
    destruct (GrammarNode.is_terminal root); [reflexivity|].
    rewrite Hrd. cbn [bind]. now rewrite Hstill.
Qed.

End search_edges.

(** ** MCTS: the restarts of a search *)

Section search_restarts.
Context {G LM : Type} `{!GrammarNode.t G} `{!SentenceScore.t LM} `{!math.t}.

Implicit Types (self : MCTS.t G LM) (rd : RessourceDistributor.t).

Lemma init_budget (strategy : string) (tree_root : G) (ressources : Z) (rng : nat) rd rng' :
  RessourceDistributor.__init__ strategy tree_root ressources rng = Ok (rd, rng') ->
  RessourceDistributor.ressources_to_consume rd = ressources.
Proof.
  unfold RessourceDistributor.__init__.
  destruct (String.eqb (if String.eqb strategy "" then _ else _) "ALL_FROM_ROOT");
    [now intros [= <- <-]|].
  destruct (String.eqb (if String.eqb strategy "" then _ else _) "UNIFORM");
    [|now intros [= <- <-]].
  destruct (GrammarNode.estimate_mean_depth tree_root 50 rng) as [average_depth r].
  destruct (truediv _ average_depth) as [q|]; [|discriminate]. cbn [bind].
  now intros [= <- <-].
Qed.

(** A run with no unit to consume and nothing pending adds the counter
    root to the heap and changes nothing else. *)
Lemma single_search_out_of_units recursion_limit loop_fuel self (root : G) rd :
  MCTS.ressource_distributor self = Some rd ->
  RessourceDistributor.still_has_ressources rd = false ->
  EvalBuffer.buffer (MCTS.eval_buffer self) = [] ->
  MCTS.single_search recursion_limit (S loop_fuel) self root
  = Ok (length (MCTS.nodes self),
        MCTS.set_nodes (MCTS.nodes self ++ [CounterNode.__init__ root None]) self).
Proof.
  intros Hrd Hstill Hbuffer.
  assert ((MCTS.nodes self ++ [CounterNode.__init__ root None]) !! length (MCTS.nodes self)
          = Some (CounterNode.__init__ root None)) as Hroot.
  { rewrite lookup_app_r by lia. now rewrite Nat.sub_diag. }
  unfold MCTS.single_search, CounterNode.new.
  cbn [MCTS.search_loop]. unfold MCTS.keep_searching, MCTS.distributor.
  cbn [MCTS.nodes MCTS.set_nodes MCTS.ressource_distributor].
  rewrite (deref_Some _ _ _ Hroot).
  cbn [bind CounterNode.reference_node CounterNode.solved CounterNode.__init__].
  assert (MCTS.set_eval_buffer
            (EvalBuffer.force_eval
               (MCTS.eval_buffer
                  (MCTS.set_nodes (MCTS.nodes self ++ [CounterNode.__init__ root None]) self)))
            (MCTS.set_nodes (MCTS.nodes self ++ [CounterNode.__init__ root None]) self)
          = MCTS.set_nodes (MCTS.nodes self ++ [CounterNode.__init__ root None]) self)
    as Hsame.
  { cbn [MCTS.eval_buffer MCTS.set_nodes]. rewrite (force_eval_empty _ Hbuffer).
    now destruct self. }
  destruct (GrammarNode.is_terminal root); cbn [bind]; [now rewrite Hsame|].
  rewrite Hrd. cbn [bind]. rewrite Hstill. cbn [bind]. now rewrite Hsame.
Qed.

Lemma restarts_out_of_units recursion_limit loop_fuel (root : G) (n : nat) :
  forall self counter_root rd,
  MCTS.ressource_distributor self = Some rd ->
  RessourceDistributor.ressources_to_consume rd <= 0 ->
  EvalBuffer.buffer (MCTS.eval_buffer self) = [] ->
  exists self',
    MCTS.restarts recursion_limit (S loop_fuel) n self root counter_root
      = Ok (match n with
            | O => counter_root
            | S m => Some (length (MCTS.nodes self) + m)%nat
            end, self') /\
    MCTS.eval_buffer self' = MCTS.eval_buffer self /\
    length (MCTS.nodes self') = (length (MCTS.nodes self) + n)%nat.
Proof.
  induction n as [|n IH]; intros self counter_root rd Hrd Hbudget Hbuffer.
  - exists self. cbn [MCTS.restarts]. split; [reflexivity|]. split; [reflexivity|lia].
  - cbn [MCTS.restarts]. unfold MCTS.distributor. rewrite Hrd. cbn [bind].
    set (self1 := MCTS.set_ressource_distributor (RessourceDistributor.reset rd) self).
    assert (RessourceDistributor.still_has_ressources (RessourceDistributor.reset rd) = false)
      as Hstill.
    { unfold RessourceDistributor.still_has_ressources. cbn. apply Z.ltb_ge. exact Hbudget. }
    rewrite (single_search_out_of_units recursion_limit loop_fuel self1 root
               (RessourceDistributor.reset rd) eq_refl Hstill Hbuffer).
    cbn [bind].
    destruct (IH (MCTS.set_nodes (MCTS.nodes self1 ++ [CounterNode.__init__ root None]) self1)
                (Some (length (MCTS.nodes self1))) (RessourceDistributor.reset rd)
                eq_refl Hbudget Hbuffer) as (self' & Hrun & Heb & Hlen).
    exists self'. rewrite Hrun. cbn [MCTS.nodes MCTS.set_nodes self1
      MCTS.set_ressource_distributor] in *. rewrite length_app in *. cbn [length] in *.
    split; [|split; [exact Heb|lia]].
    assert (match n with
            | O => Some (length (MCTS.nodes self))
            | S m => Some (length (MCTS.nodes self) + 1 + m)%nat
            end = Some (length (MCTS.nodes self) + n)%nat) as ->; [|reflexivity].
    destruct n as [|m]; f_equal; lia.
Qed.

(** X16: [search] at the edges of its arguments. With 0 restarts the split
    of the walks raises [ZeroDivisionError]. With a negative number of
    restarts the distributor is built, no run is made and the return raises
    [UnboundLocalError]. With fewer walks than restarts each run has a
    budget of 0: no walk is made, the scorer receives no call, and [search]
    returns the best sentence and score the buffer held before, with the
    counter root of the last run. *)
Theorem search_at_the_edges recursion_limit loop_fuel self (root : G) (nb_of_tree_walks : Z) :
  (MCTS.nb_random_restarts self = 0 ->
   MCTS.search recursion_limit loop_fuel self root nb_of_tree_walks = Raise ZeroDivisionError) /\
  (MCTS.nb_random_restarts self < 0 ->
   forall rd rng',
     RessourceDistributor.__init__ (MCTS.allocation_strategy self) root
       (nb_of_tree_walks / MCTS.nb_random_restarts self) (MCTS.rng self) = Ok (rd, rng') ->
     MCTS.search recursion_limit loop_fuel self root nb_of_tree_walks
       = Raise (UnboundLocalError "counter_root")) /\
  (0 <= nb_of_tree_walks < MCTS.nb_random_restarts self ->
   EvalBuffer.buffer (MCTS.eval_buffer self) = [] ->
   forall rd rng',
     RessourceDistributor.__init__ (MCTS.allocation_strategy self) root 0 (MCTS.rng self)
       = Ok (rd, rng') ->
     exists self',
       MCTS.search recursion_limit (S loop_fuel) self root nb_of_tree_walks
         = Ok (EvalBuffer.best_sentence (MCTS.eval_buffer self),
               EvalBuffer.best_score (MCTS.eval_buffer self),
               (length (MCTS.nodes self)
                + Z.to_nat (MCTS.nb_random_restarts self) - 1)%nat,
               self') /\
       MCTS.eval_buffer self' = MCTS.eval_buffer self /\
       length (MCTS.nodes self')
         = (length (MCTS.nodes self) + Z.to_nat (MCTS.nb_random_restarts self))%nat).
Proof.
  split; [|split].
  - intros Hzero. unfold MCTS.search. now rewrite Hzero.
  - intros Hneg rd rng' Hinit. unfold MCTS.search.
    replace (MCTS.nb_random_restarts self =? 0) with false by (symmetry; apply Z.eqb_neq; lia).
    rewrite Hinit. cbn [bind MCTS.nb_random_restarts MCTS.set_rng
                         MCTS.set_ressource_distributor].
    replace (Z.to_nat (MCTS.nb_random_restarts self)) with 0%nat by lia. reflexivity.
  - intros Hfew Hbuffer rd rng' Hinit. unfold MCTS.search.
    replace (MCTS.nb_random_restarts self =? 0) with false by (symmetry; apply Z.eqb_neq; lia).
    rewrite Z.div_small by exact Hfew. rewrite Hinit. cbn [bind].
    set (self1 := MCTS.set_rng rng' (MCTS.set_ressource_distributor rd self)).
    change (MCTS.nb_random_restarts self1) with (MCTS.nb_random_restarts self).
    assert (RessourceDistributor.ressources_to_consume rd <= 0) as Hbudget
      by (rewrite (init_budget _ _ _ _ _ _ Hinit); lia).
    destruct (restarts_out_of_units recursion_limit loop_fuel root
                (Z.to_nat (MCTS.nb_random_restarts self)) self1 None rd
                eq_refl Hbudget Hbuffer) as (self' & Hrun & Heb & Hlen).
    rewrite Hrun. cbn [bind].
    destruct (Z.to_nat (MCTS.nb_random_restarts self)) as [|m] eqn:Hm; [lia|].
    exists self'. change (MCTS.eval_buffer self1) with (MCTS.eval_buffer self) in Heb.
    change (MCTS.nodes self1) with (MCTS.nodes self) in Hlen |- *. rewrite Heb.
    split; [|split; [reflexivity|exact Hlen]].
    replace (length (MCTS.nodes self) + S m - 1)%nat with (length (MCTS.nodes self) + m)%nat
      by lia.
    reflexivity.
Qed.

End search_restarts.


(** [single_search_without_a_walk] on a grammar that is one terminal leaf. *)
Lemma single_search_without_a_walk_witness :
  MCTS.single_search 5 1 (Sample.engine "ALL_FROM_ROOT" 2) Sample.leaf_x
  = Ok (0%nat,
        MCTS.set_nodes [CounterNode.__init__ Sample.leaf_x None]
          (Sample.engine "ALL_FROM_ROOT" 2)).
Proof.
  exact (proj1 (@single_search_without_a_walk _ _ Sample.tree_grammar Sample.stub_scorer
                  Sample.coarse_math 5 0 (Sample.engine "ALL_FROM_ROOT" 2) Sample.leaf_x)
           eq_refl).
Defined.

(** [search_at_the_edges] with 2 walks for 3 restarts: three counter roots
    are created, the last at reference 2, and the initial best pair comes
    back. *)
Lemma search_at_the_edges_witness :
  exists self',
    MCTS.search 5 1 (MCTS.__init__ [] "ALL_FROM_ROOT" 2 3 0%nat) Sample.chain 2
      = Ok (""%string, (-1)%Q, 2%nat, self') /\
    EvalBuffer.lm_scorer (MCTS.eval_buffer self') = [].
Proof.
  destruct (proj2 (proj2 (@search_at_the_edges _ _ Sample.tree_grammar Sample.stub_scorer
                            Sample.coarse_math 5 0
                            (MCTS.__init__ [] "ALL_FROM_ROOT" 2 3 0%nat) Sample.chain 2))
              ltac:(cbn; lia) eq_refl _ _ eq_refl) as (self' & Hrun & Heb & _).
  exists self'. split; [exact Hrun|]. now rewrite Heb.
Defined.

(** ** MCTS: solved nodes *)

Section solved_nodes.
Context {G LM : Type} `{!GrammarNode.t G} `{!SentenceScore.t LM} `{!math.t}.

Implicit Types (h : list (CounterNode.t G)) (n : CounterNode.t G).

Lemma shape_kept_refl h : shape_kept h h.
Proof. split; [reflexivity|]. intros i n Hn. exists n. now repeat split. Qed.

Lemma shape_kept_trans h1 h2 h3 : shape_kept h1 h2 -> shape_kept h2 h3 -> shape_kept h1 h3.
Proof.
  intros [L12 H12] [L23 H23]. split; [congruence|]. intros i n Hn.
  destruct (H12 i n Hn) as (n2 & Hn2 & Hr2 & Hk2 & Ht2 & Hs2).
  destruct (H23 i n2 Hn2) as (n3 & Hn3 & Hr3 & Hk3 & Ht3 & Hs3).
  exists n3. repeat split; [exact Hn3|congruence..].
Qed.

Lemma shape_kept_alter (f : CounterNode.t G -> CounterNode.t G) i h :
  (forall n, CounterNode.reference_node (f n) = CounterNode.reference_node n /\
             CounterNode._children (f n) = CounterNode._children n /\
             CounterNode._is_terminal (f n) = CounterNode._is_terminal n /\
             CounterNode.solved (f n) = CounterNode.solved n) ->
  shape_kept h (alter f i h).
Proof.
  intros Hf. split; [apply length_alter|]. intros j n Hn.
  destruct (decide (i = j)) as [->|Hne].
  - exists (f n). rewrite list_lookup_alter_eq, Hn. split; [reflexivity|apply Hf].
  - exists n. rewrite list_lookup_alter_ne by exact Hne. now repeat split.
Qed.

Lemma shape_kept_inv h h' i n' :
  shape_kept h h' -> h' !! i = Some n' ->
  exists n, h !! i = Some n /\
    CounterNode.reference_node n' = CounterNode.reference_node n /\
    CounterNode._children n' = CounterNode._children n /\
    CounterNode._is_terminal n' = CounterNode._is_terminal n /\
    CounterNode.solved n' = CounterNode.solved n.
Proof.
  intros [Hlen Hkept] Hn'.
  destruct (lookup_lt_is_Some_2 h i) as [n Hn].
  { rewrite <- Hlen. eapply lookup_lt_Some; eauto. }
  destruct (Hkept i n Hn) as (n'' & Hn'' & Hrest).
  exists n. split; [exact Hn|]. congruence.
Qed.

Lemma solved_ok_shape_kept h h' : solved_ok h -> shape_kept h h' -> solved_ok h'.
Proof.
  intros Hok Hkept i n' Hn'.
  destruct (shape_kept_inv _ _ _ _ Hkept Hn') as (n & Hn & Hr & Hk & Ht & Hs).
  destruct (Hok i n Hn) as [Hnone Hsolved]. rewrite Hr, Hk, Ht, Hs.
  split; [exact Hnone|]. intros Htrue. specialize (Hsolved Htrue).
  destruct (CounterNode._children n) as [kids|]; [|exact Hsolved].
  intros k Hin. destruct (Hsolved k Hin) as (kn & Hkn & Hks).
  destruct (proj2 Hkept k kn Hkn) as (kn' & Hkn' & _ & _ & _ & Hks').
  exists kn'. split; [exact Hkn'|congruence].
Qed.

Lemma absorb_shape reward leaf n :
  CounterNode.reference_node (CounterNode.absorb reward leaf n) = CounterNode.reference_node n /\
  CounterNode._children (CounterNode.absorb reward leaf n) = CounterNode._children n /\
  CounterNode._is_terminal (CounterNode.absorb reward leaf n) = CounterNode._is_terminal n /\
  CounterNode.solved (CounterNode.absorb reward leaf n) = CounterNode.solved n.
Proof. unfold CounterNode.absorb. cbn. now destruct (Qgtb _ _). Qed.

Lemma backpropagate_shape_kept depth : forall h start reward leaf h',
  CounterNode.backpropagate depth h start reward leaf = Ok h' -> shape_kept h h'.
Proof.
  induction depth as [|depth IH]; intros h start reward leaf h'; [discriminate|].
  cbn [CounterNode.backpropagate].
  destruct (CounterNode.deref h start) as [node|]; [|discriminate]. cbn [bind].
  destruct (CounterNode.freeze node); [intros [= <-]; apply shape_kept_refl|].
  pose proof (shape_kept_alter (CounterNode.absorb reward leaf) start h
                (absorb_shape reward leaf)) as Hstep.
  destruct (CounterNode.parent node) as [p|].
  - intros Hrun. eapply shape_kept_trans; [exact Hstep|]. eapply IH; eauto.
  - now intros [= <-].
Qed.

Lemma backpropagate_all_shape_kept recursion_limit results : forall h h',
  MCTS.backpropagate_all recursion_limit h results = Ok h' -> shape_kept h h'.
Proof.
  induction results as [|[[reward leaf] owner] results IH]; intros h h';
    cbn [MCTS.backpropagate_all].
  - intros [= <-]. apply shape_kept_refl.
  - destruct (CounterNode.backpropagate _ _ _ _ _) as [h1|] eqn:Hfirst; [|discriminate].
    cbn [bind]. intros Hrest. eapply shape_kept_trans.
    + eapply backpropagate_shape_kept; eauto.
    + now apply IH.
Qed.

Lemma only_counts_shape_kept h h' :
  length h' = length h ->
  (forall i n, h !! i = Some n ->
     exists c, CounterNode.count n <= c /\ h' !! i = Some (CounterNode.set_count c n)) ->
  shape_kept h h'.
Proof.
  intros Hlen Hall. split; [exact Hlen|]. intros i n Hn.
  destruct (Hall i n Hn) as (c & _ & Hn'). eexists. split; [exact Hn'|]. now repeat split.
Qed.

Lemma selection_phase_shape_kept loop_fuel h root frontier h' :
  MCTS.selection_phase loop_fuel h root = Ok (frontier, h') ->
  shape_kept h h' /\
  exists fn, h' !! frontier = Some fn /\ CounterNode._is_terminal fn = true.
Proof.
  unfold MCTS.selection_phase.
  destruct (MCTS.visit h root) as [h1|] eqn:Hvisit; [|discriminate]. cbn [bind].
  intros Hloop. destruct (visit_only_counts _ _ _ Hvisit) as (Hlen1 & Hall1 & _).
  destruct (selection_loop_only_counts _ _ _ _ _ Hloop) as (Hfront & Hlen & Hall).
  split; [|exact Hfront].
  eapply shape_kept_trans; apply only_counts_shape_kept; eauto.
Qed.

Lemma all_solved_true h brothers :
  CounterNode.all_solved h brothers = Ok true ->
  forall k, k ∈ brothers -> exists kn, h !! k = Some kn /\ CounterNode.solved kn = true.
Proof.
  induction brothers as [|b brothers IH]; cbn [CounterNode.all_solved].
  - intros _ k Hin. now apply elem_of_nil in Hin.
  - destruct (CounterNode.deref h b) as [bn|] eqn:Hb; [|discriminate]. cbn [bind].
    apply deref_Ok in Hb. destruct (CounterNode.solved bn) eqn:Hs; [|discriminate].
    intros Hrest k Hin. apply elem_of_cons in Hin as [->|Hin]; [now exists bn|now apply IH].
Qed.

(** Marking a node solved keeps the solved nodes in order when the node is
    ready for it: it wraps a terminal grammar node and has no child list, or
    its children are all solved. *)
Lemma set_as_solved_solved_ok depth : forall h self h' node,
  solved_ok h -> h !! self = Some node ->
  match CounterNode._children node with
  | None => GrammarNode.is_terminal (CounterNode.reference_node node) = true
  | Some kids =>
      forall k, k ∈ kids -> exists kn, h !! k = Some kn /\ CounterNode.solved kn = true
  end ->
  CounterNode.set_as_solved depth h self = Ok h' -> solved_ok h'.
Proof.
  induction depth as [|depth IH]; intros h self h' node Hok Hnode Hready; [discriminate|].
  cbn [CounterNode.set_as_solved]. rewrite (deref_Some _ _ _ Hnode). cbn [bind].
  set (h1 := alter (CounterNode.set_solved true) self h).
  assert (forall i n, h !! i = Some n ->
            exists n1, h1 !! i = Some n1 /\
              CounterNode.reference_node n1 = CounterNode.reference_node n /\
              CounterNode._children n1 = CounterNode._children n /\
              CounterNode._is_terminal n1 = CounterNode._is_terminal n /\
              (CounterNode.solved n = true -> CounterNode.solved n1 = true) /\
              (i <> self -> CounterNode.solved n1 = CounterNode.solved n)) as Hfwd.
  { intros i n Hn. unfold h1. rewrite list_lookup_alter.
    destruct (decide (self = i)) as [->|Hne].
    - rewrite Hn. eexists. split; [reflexivity|]. repeat split. congruence.
    - exists n. now repeat split. }
  assert (solved_ok h1) as Hok1.
  { intros i n1 Hn1.
    destruct (lookup_lt_is_Some_2 h i) as [n Hn].
    { rewrite <- (length_alter (CounterNode.set_solved true) h self).
      eapply lookup_lt_Some; eauto. }
    destruct (Hfwd i n Hn) as (n1' & Hn1' & Hr & Hk & Ht & Hup & Hsame).
    assert (n1' = n1) as -> by (unfold h1 in *; congruence).
    destruct (Hok i n Hn) as [Hnone Hsolved]. rewrite Hr, Hk, Ht.
    split; [exact Hnone|]. intros Htrue.
    assert (match CounterNode._children n with
            | None => GrammarNode.is_terminal (CounterNode.reference_node n) = true
            | Some kids => forall k, k ∈ kids ->
                exists kn, h !! k = Some kn /\ CounterNode.solved kn = true
            end) as Hbefore.
    { destruct (decide (i = self)) as [->|Hne].
      - assert (n = node) as -> by congruence. exact Hready.
      - apply Hsolved. rewrite <- (Hsame Hne). exact Htrue. }
    destruct (CounterNode._children n) as [kids|]; [|exact Hbefore].
    intros k Hin. destruct (Hbefore k Hin) as (kn & Hkn & Hks).
    destruct (Hfwd k kn Hkn) as (kn1 & Hkn1 & _ & _ & _ & Hup' & _).
    exists kn1. split; [exact Hkn1|auto]. }
  destruct (CounterNode.parent node) as [p|]; [|now intros [= <-]].
  destruct (CounterNode.deref h1 p) as [pnode|] eqn:Hp; [|discriminate]. cbn [bind].
  apply deref_Ok in Hp.
  destruct (CounterNode.freeze pnode); [now intros [= <-]|].
  destruct (CounterNode.children h1 p) as [brothers|] eqn:Hbrothers; [|discriminate].
  cbn [bind].
  destruct (CounterNode.all_solved h1 brothers) as [[|]|] eqn:Hall; try discriminate;
    cbn [bind]; [|now intros [= <-]].
  intros Hup. destruct (children_Ok _ _ _ Hbrothers) as (pn & Hpn & Hkids).
  eapply (IH h1 p h' pn Hok1 Hpn); [|exact Hup].
  rewrite Hkids. now apply all_solved_true.
Qed.

Lemma expand_solved_ok h self h' node :
  solved_ok h -> h !! self = Some node -> CounterNode._is_terminal node = true ->
  CounterNode.expand h self = Ok h' -> solved_ok h'.
Proof.
  intros Hok Hnode Hfrontier. unfold CounterNode.expand.
  rewrite (deref_Some _ _ _ Hnode). cbn [bind].
  destruct (GrammarNode.is_terminal (CounterNode.reference_node node)) eqn:Hterm;
    [discriminate|].
  cbn zeta. set (kids := GrammarNode.children (CounterNode.reference_node node)).
  set (refs := seq (length h) (length kids)).
  set (mark := fun n => CounterNode.set_is_terminal false
                          (CounterNode.set_children (Some refs) n)).
  intros [= <-]. pose proof (lookup_lt_Some _ _ _ Hnode) as Hself.
  destruct (Hok self node Hnode) as [Hnone Hsolved]. specialize (Hnone Hfrontier).
  assert (CounterNode.solved node = false) as Hunsolved.
  { destruct (CounterNode.solved node) eqn:Hs; [|reflexivity].
    specialize (Hsolved eq_refl). rewrite Hnone in Hsolved. congruence. }
  assert (forall j n, h !! j = Some n -> j <> self ->
            alter mark self (h ++ map (fun g => CounterNode.__init__ g (Some self)) kids) !! j
            = Some n) as Hold.
  { intros j n Hn Hne. rewrite list_lookup_alter_ne by congruence.
    apply lookup_app_l_Some, Hn. }
  intros j n' Hn'. destruct (decide (j < length h)%nat) as [Hj|Hj].
  - destruct (lookup_lt_is_Some_2 h j Hj) as [n Hn].
    destruct (decide (j = self)) as [->|Hne].
    + assert (n = node) as -> by congruence.
      rewrite list_lookup_alter_eq, lookup_app_l, Hnode in Hn' by exact Hself.
      injection Hn' as <-. cbn. rewrite Hunsolved. split; discriminate.
    + rewrite (Hold j n Hn Hne) in Hn'. injection Hn' as <-.
      destruct (Hok j n Hn) as [Hnone' Hsolved']. split; [exact Hnone'|].
      intros Htrue. specialize (Hsolved' Htrue).
      destruct (CounterNode._children n) as [ks|]; [|exact Hsolved'].
      intros k Hin. destruct (Hsolved' k Hin) as (kn & Hkn & Hks).
      assert (k <> self) as Hk by (intros ->; congruence).
      exists kn. split; [now apply Hold|exact Hks].
  - rewrite list_lookup_alter_ne in Hn' by lia.
    rewrite lookup_app_r, lookup_map_fmap in Hn' by lia.
    destruct (kids !! (j - length h)%nat) as [g|]; [|discriminate].
    injection Hn' as <-. cbn. split; [reflexivity|discriminate].
Qed.

Lemma new_root_solved_ok h (root : G) :
  solved_ok h -> solved_ok (h ++ [CounterNode.__init__ root None]).
Proof.
  intros Hok j n' Hn'. apply lookup_app_Some in Hn' as [Hn|[_ Hn]].
  - destruct (Hok j n' Hn) as [Hnone Hsolved]. split; [exact Hnone|].
    intros Htrue. specialize (Hsolved Htrue).
    destruct (CounterNode._children n') as [kids|]; [|exact Hsolved].
    intros k Hin. destruct (Hsolved k Hin) as (kn & Hkn & Hks).
    exists kn. split; [now apply lookup_app_l_Some|exact Hks].
  - apply list_lookup_singleton_Some in Hn as [_ <-]. cbn. split; [reflexivity|discriminate].
Qed.

Lemma advance_root_solved_ok recursion_limit (self : MCTS.t G LM) root depth
    self' root' depth' :
  solved_ok (MCTS.nodes self) ->
  MCTS.advance_root recursion_limit self root depth = Ok (self', root', depth') ->
  solved_ok (MCTS.nodes self').
Proof.
  intros Hok. unfold MCTS.advance_root, EvalBuffer.pop_results.
  destruct (MCTS.backpropagate_all _ _ _) as [h1|] eqn:Hback; [|discriminate].
  cbn [bind]. apply backpropagate_all_shape_kept in Hback.
  destruct (CounterNode.deref h1 root) as [rn|]; [|discriminate]. cbn [bind].
  destruct (CounterNode.children _ root) as [kids|]; [|discriminate]. cbn [bind].
  destruct (MCTS.py_max _ kids) as [best|]; [|discriminate]. cbn [bind].
  destruct (MCTS.distributor self) as [rd|]; [|discriminate]. cbn [bind].
  intros [= <- <- <-].
  cbn [MCTS.nodes MCTS.set_ressource_distributor MCTS.set_nodes MCTS.set_eval_buffer].
  eapply solved_ok_shape_kept; [eapply solved_ok_shape_kept; [exact Hok|exact Hback]|].
  apply shape_kept_alter. now intros n.
Qed.

Lemma iteration_solved_ok recursion_limit loop_fuel (self : MCTS.t G LM) root depth
    self' root' depth' :
  solved_ok (MCTS.nodes self) ->
  MCTS.iteration recursion_limit loop_fuel self root depth = Ok (self', root', depth') ->
  solved_ok (MCTS.nodes self').
Proof.
  intros Hok. unfold MCTS.iteration, EvalBuffer.pop_results.
  destruct (MCTS.distributor self) as [rd|]; [|discriminate]. cbn [bind].
  cbn [MCTS.nodes MCTS.set_ressource_distributor MCTS.eval_buffer MCTS.rng].
  destruct (MCTS.selection_phase _ _ root) as [[frontier h1]|] eqn:Hsel; [|discriminate].
  cbn [bind]. destruct (selection_phase_shape_kept _ _ _ _ _ Hsel) as [Hkept1 (fn & Hfn & Hterm)].
  pose proof (solved_ok_shape_kept _ _ Hok Hkept1) as Hok1.
  rewrite (deref_Some _ _ _ Hfn). cbn [bind].
  match goal with |- context [bind (if ?c then ?a else ?b) _] =>
    destruct (if c then a else b) as [h2|] eqn:Hexp; [|discriminate] end.
  cbn [bind].
  assert (solved_ok h2) as Hok2.
  { destruct (GrammarNode.is_terminal (CounterNode.reference_node fn)) eqn:Hleaf.
    - eapply (set_as_solved_solved_ok _ h1 frontier h2 fn Hok1 Hfn); [|exact Hexp].
      rewrite (proj1 (Hok1 frontier fn Hfn) Hterm). exact Hleaf.
    - eapply expand_solved_ok; eauto. }
  destruct (MCTS.simulation _ _ _) as [[random_leaf rng']|]; [|discriminate].
  cbn [bind]. destruct (MCTS.backpropagate_all _ h2 _) as [h3|] eqn:Hback; [|discriminate].
  cbn [bind]. apply backpropagate_all_shape_kept in Hback.
  pose proof (solved_ok_shape_kept _ _ Hok2 Hback) as Hok3.
  match goal with |- context [bind (MCTS.distributor ?s) _] =>
    destruct (MCTS.distributor s) as [rd'|]; [|discriminate] end.
  cbn [bind].
  destruct (RessourceDistributor.should_go_down_into_the_tree rd') as [[|]|];
    [| |discriminate]; cbn [bind].
  - intros Hadv. eapply advance_root_solved_ok; [|exact Hadv]. exact Hok3.
  - intros [= <- <- <-]. exact Hok3.
Qed.

(** X8: solved nodes stay sound during a search. At every observation point
    of the loop of [single_search], and in the heap it returns, a counter
    node that is marked solved and has no child list wraps a terminal
    grammar node, and one that has a child list has all its children
    solved; a node not yet expanded has no child list. *)
Theorem solved_nodes_have_solved_children recursion_limit loop_fuel
    (self : MCTS.t G LM) (root : G) :
  solved_ok (MCTS.nodes self) ->
  let start := (MCTS.set_nodes (MCTS.nodes self ++ [CounterNode.__init__ root None]) self,
                length (MCTS.nodes self), 1) in
  (forall now logical_root depth,
     observed recursion_limit loop_fuel start (now, logical_root, depth) ->
     solved_ok (MCTS.nodes now)) /\
  (forall r final,
     MCTS.single_search recursion_limit loop_fuel self root = Ok (r, final) ->
     solved_ok (MCTS.nodes final)).
Proof.
  intros Hok start.
  assert (forall state, observed recursion_limit loop_fuel start state ->
            solved_ok (MCTS.nodes (fst (fst state)))) as Hobserved.
  { intros state Hobs.
    induction Hobs as [|now logical_root depth [[after root'] depth'] _ IH _ Hiter].
    - cbn [fst start MCTS.nodes MCTS.set_nodes]. now apply new_root_solved_ok.
    - cbn [fst] in *. eapply iteration_solved_ok; eauto. }
  split.
  - intros now logical_root depth Hobs. exact (Hobserved _ Hobs).
  - intros r final Hrun.
    destruct (single_search_final_flush _ _ _ _ _ _ Hrun) as (at_exit & Hloop & _ & Hnodes & _).
    destruct (search_loop_observed recursion_limit loop_fuel start _ _ _ _ _
                (observed_start _ _ _) Hloop) as (root' & depth' & Hobs).
    rewrite Hnodes. exact (Hobserved _ Hobs).
Qed.

End solved_nodes.

(** [solved_nodes_have_solved_children] on the search of the sample grammar
    in 4 walks, which solves the node "a" and its two leaves. *)
Lemma solved_nodes_have_solved_children_witness :
  exists final a,
    MCTS.single_search 100 100 Sample.uniform_engine Sample.chain = Ok (0%nat, final) /\
    MCTS.nodes final !! 1%nat = Some a /\ CounterNode.solved a = true /\
    solved_ok (MCTS.nodes final).
Proof.
  assert (solved_ok (MCTS.nodes Sample.uniform_engine)) as Hok by (intros i n; discriminate).
  destruct (MCTS.single_search 100 100 Sample.uniform_engine Sample.chain)
    as [[r final]|e] eqn:Hrun; [|vm_compute in Hrun; discriminate].
  pose proof (proj2 (solved_nodes_have_solved_children 100 100 Sample.uniform_engine
                       Sample.chain Hok) r final Hrun) as Hsolved.
  vm_compute in Hrun. injection Hrun as <- <-.
  eexists. eexists. split; [reflexivity|]. split; [reflexivity|]. split; [reflexivity|].
  exact Hsolved.
Defined.
